(** * 2D3DGerberViewer: the Gerber and Excellon interpreters of [2D3Dgerber.py]

    A shallow embedding of the format-decoding core of [GerberViewer]
    ([parse_gerber], [_get_aperture_width], [_create_arc_path], [parse_drill]
    and [coords_close_and_fix]) together with the properties of the
    specification that concern them.

    Conventions of the embedding.
    - A Python [float] is an IEEE 754 binary64 number: Rocq's primitive
      [float], whose operations are the same correctly rounded ones.
    - A Python [int] is a [Z]; a [dict] is a [gmap]; a [str] is a [string] of
      8-bit characters (the input files are taken to be ASCII text, so [\d]
      is [0-9] and [str.upper] only touches [a-z]).
    - A file is the list of its lines as the Python text reader yields them.
    - Qt and Shapely objects are kept as the constructor calls the program
      issues; what those libraries compute from them is not part of this
      repository. *)

From Stdlib Require Import ZArith Lia Bool.
From Stdlib Require Import Ascii String.
From Stdlib Require Decimal DecimalString.
From Stdlib Require Import Floats.
From stdpp Require Import base option list gmap strings.

Set Warnings "-inexact-float".
Local Open Scope Z_scope.

(** ** Python floats *)

Module PyFloat.

(** The integer [n] as an unrounded binary number. *)
Definition Z2SF (n : Z) : spec_float :=
  match n with
  | Z0 => S754_zero false
  | Zpos p => S754_finite false p 0
  | Zneg p => S754_finite true p 0
  end.

(** The binary64 number nearest to [n / d] (ties to even), for [d > 0]:
    the value both of Python's [int / int] and of a decimal literal. *)
Definition of_ratio (n d : Z) : float :=
  SF2Prim (SFdiv prec emax (Z2SF n) (Z2SF d)).

Definition of_Z (n : Z) : float := of_ratio n 1.

Definition is_finite (x : float) : bool :=
  negb (PrimFloat.is_nan x) && negb (PrimFloat.is_infinity x).

(** [a / b] on Python integers: ZeroDivisionError on [b = 0], OverflowError
    when the quotient is too large for a float; both are [None] here. *)
Definition int_truediv (a b : Z) : option float :=
  if b =? 0 then None
  else let q := of_ratio a b in
       if PrimFloat.is_infinity q then None else Some q.

(** [x ** 2] on a float: OverflowError when a finite [x] squares to
    infinity.  The C library's [pow(x, 2.0)] is taken to be [x * x]. *)
Definition pow2 (x : float) : option float :=
  let r := (x * x)%float in
  if is_finite x && PrimFloat.is_infinity r then None else Some r.

(** [x ** 0.5] for [x >= 0], taken to be the square root. *)
Definition pow_half (x : float) : float := PrimFloat.sqrt x.

(** [min(a, b)] *)
Definition min (a b : float) : float := if (b <? a)%float then b else a.

End PyFloat.

(** ** The order of binary64 numbers

    A finite binary64 number is an integer multiple of [2 ^ -1074]; that
    integer orders the numbers as the comparisons of floats do. *)

Module FloatOrder.

Definition scaled (f : spec_float) : Z :=
  match f with
  | S754_finite s m e => (if s then - Z.pos m else Z.pos m) * 2 ^ (e + 1074)
  | _ => 0
  end.

Definition is_finite (f : spec_float) : bool :=
  match f with
  | S754_zero _ | S754_finite _ _ _ => true
  | _ => false
  end.

(** 360 as a multiple of [2 ^ -1074] *)
Definition full_turn : Z := 45 * 2 ^ 1077.

(** [mrs] is [M] shifted right by [k] digits, its two flags clear when
    nothing was shifted out. *)
Definition shifted (M k : Z) (mrs : shr_record) : Prop :=
  shr_m mrs = M / 2 ^ k
  /\ (M mod 2 ^ k = 0 -> shr_r mrs = false /\ shr_s mrs = false).

End FloatOrder.

(** ** Python strings and the regular expressions of the two parsers *)

Module PyStr.

Local Open Scope char_scope.

Definition code (c : ascii) : N := N_of_ascii c.

Definition is_digit (c : ascii) : bool :=
  (48 <=? code c)%N && (code c <=? 57)%N.

Definition is_upper (c : ascii) : bool :=
  (65 <=? code c)%N && (code c <=? 90)%N.

Definition is_lower (c : ascii) : bool :=
  (97 <=? code c)%N && (code c <=? 122)%N.

(** [str.isspace] on ASCII, which is also [\s]: TAB..CR, FS..US, SPACE. *)
Definition is_space (c : ascii) : bool :=
  ((9 <=? code c)%N && (code c <=? 13)%N)
  || ((28 <=? code c)%N && (code c <=? 32)%N).

Definition digit_val (c : ascii) : Z := Z.of_N (code c) - 48.

Definition upper_char (c : ascii) : ascii :=
  if is_lower c then ascii_of_N (code c - 32) else c.

Fixpoint upper (s : string) : string :=
  match s with
  | EmptyString => EmptyString
  | String c r => String (upper_char c) (upper r)
  end.

Fixpoint lstrip (s : string) : string :=
  match s with
  | String c r => if is_space c then lstrip r else s
  | EmptyString => EmptyString
  end.

Fixpoint rstrip (s : string) : string :=
  match s with
  | EmptyString => EmptyString
  | String c r =>
      match rstrip r with
      | EmptyString => if is_space c then EmptyString else String c EmptyString
      | r' => String c r'
      end
  end.

(** [s.strip()] *)
Definition strip (s : string) : string := rstrip (lstrip s).

(** [s.startswith(p)] *)
Definition startswith (s p : string) : bool := String.prefix p s.

(** [p in s] *)
Fixpoint contains (p s : string) : bool :=
  String.prefix p s
  || match s with
     | EmptyString => false
     | String _ r => contains p r
     end.

(** The longest run of characters satisfying [f] at the head of [s], and
    what follows it: a greedy [[...]*]. *)
Fixpoint span (f : ascii -> bool) (s : string) : string * string :=
  match s with
  | String c r =>
      if f c then let '(a, b) := span f r in (String c a, b)
      else (EmptyString, s)
  | EmptyString => (EmptyString, EmptyString)
  end.

(** The value of a run of decimal digits. *)
Fixpoint digits_value (acc : Z) (s : string) : Z :=
  match s with
  | String c r => digits_value (10 * acc + digit_val c) r
  | EmptyString => acc
  end.

(** [int(s)] for [s] matching [[+-]?\d+], the only strings the parsers
    convert. *)
Definition int (s : string) : Z :=
  match s with
  | String "-" r => - digits_value 0 r
  | String "+" r => digits_value 0 r
  | _ => digits_value 0 s
  end.

(** [s.lstrip('+-')] *)
Fixpoint lstrip_sign (s : string) : string :=
  match s with
  | String c r => if (c =? "+") || (c =? "-") then lstrip_sign r else s
  | EmptyString => EmptyString
  end.

(** [re.split('[Xx]', s)] *)
Fixpoint split_Xx (s : string) : list string :=
  match s with
  | EmptyString => [EmptyString]
  | String c r =>
      if (c =? "X") || (c =? "x") then EmptyString :: split_Xx r
      else match split_Xx r with
           | h :: t => String c h :: t
           | [] => [String c EmptyString]
           end
  end.

(** *** [float(s)]

    The grammar of Python's [float]: surrounding white space, a sign, then
    [inf], [infinity], [nan] or a decimal number with an optional exponent,
    digits possibly grouped by single underscores.  The value is the nearest
    binary64 number; anything else is a ValueError ([None]). *)

(** [(["_"] digit)*] *)
Fixpoint digit_run (s : string) : string * string :=
  match s with
  | String c r =>
      if is_digit c then let '(a, b) := digit_run r in (String c a, b)
      else if c =? "_" then
        match r with
        | String d r' =>
            if is_digit d then let '(a, b) := digit_run r' in (String d a, b)
            else (EmptyString, s)
        | EmptyString => (EmptyString, s)
        end
      else (EmptyString, s)
  | EmptyString => (EmptyString, EmptyString)
  end.

(** [digit (["_"] digit)*] *)
Definition digitpart (s : string) : option (string * string) :=
  match s with
  | String c r =>
      if is_digit c then let '(a, b) := digit_run r in Some (String c a, b)
      else None
  | EmptyString => None
  end.

(** [[digitpart] "." digitpart | digitpart ["."]]: the integer digits, the
    fraction digits and the rest. *)
Definition number (s : string) : option (string * string * string) :=
  match digitpart s with
  | Some (ip, String "." r) =>
      match digitpart r with
      | Some (fp, r') => Some (ip, fp, r')
      | None => Some (ip, EmptyString, r)
      end
  | Some (ip, r) => Some (ip, EmptyString, r)
  | None =>
      match s with
      | String "." r =>
          match digitpart r with
          | Some (fp, r') => Some (EmptyString, fp, r')
          | None => None
          end
      | _ => None
      end
  end.

(** [[("e" | "E") [sign] digitpart]], which must end the string. *)
Definition exponent (s : string) : option Z :=
  match s with
  | EmptyString => Some 0
  | String c r =>
      if (c =? "e") || (c =? "E") then
        let '(neg, r1) :=
          match r with
          | String "-" r1 => (true, r1)
          | String "+" r1 => (false, r1)
          | _ => (false, r)
          end in
        match digitpart r1 with
        | Some (ds, EmptyString) =>
            Some (if neg then - digits_value 0 ds else digits_value 0 ds)
        | _ => None
        end
      else None
  end.

Definition absfloatvalue (s : string) : option float :=
  let u := upper s in
  if (u =? "INF")%string || (u =? "INFINITY")%string then Some infinity
  else if (u =? "NAN")%string then Some nan
  else
    match number s with
    | Some (ip, fp, r) =>
        match exponent r with
        | Some e =>
            let m := digits_value 0 (ip +:+ fp) in
            let e10 := e - Z.of_nat (String.length fp) in
            Some (if (0 <=? e10)%Z then PyFloat.of_ratio (m * 10 ^ e10) 1
                  else PyFloat.of_ratio m (10 ^ (- e10)))
        | None => None
        end
    | None => None
    end.

Definition py_float (s : string) : option float :=
  match strip s with
  | String "-" r => option_map PrimFloat.opp (absfloatvalue r)
  | String "+" r => absfloatvalue r
  | r => absfloatvalue r
  end.

(** [s.lower()] *)
Definition lower_char (c : ascii) : ascii :=
  if is_upper c then ascii_of_N (code c + 32) else c.

Fixpoint lower (s : string) : string :=
  match s with
  | EmptyString => EmptyString
  | String c r => String (lower_char c) (lower r)
  end.

(** [s.endswith(suffix)] *)
Definition endswith (s suffix : string) : bool :=
  (String.length suffix <=? String.length s)%nat
  && (substring (String.length s - String.length suffix)
                (String.length suffix) s =? suffix)%string.

End PyStr.

(** ** Exceptions *)

Inductive exn := OSError | OverflowError | IndexError | ValueError.

Inductive outcome (A : Type) :=
| Return (a : A)
| Raise (e : exn).
Arguments Return {A} a.
Arguments Raise {A} e.

Global Instance outcome_ret : MRet outcome := fun A a => Return a.

Global Instance outcome_bind : MBind outcome := fun A B k m =>
  match m with
  | Return a => k a
  | Raise e => Raise e
  end.

(** What [open(filepath, 'r')] gives: the lines of the file, or an I/O
    failure. *)
Inductive file :=
| Unreadable
| Readable (lines : list string).

(** ** The [math] functions the arc resolver calls

    [math.atan2], [math.degrees] and the float remainder [%] are the C
    library's; the embedding is parametric in them. *)
Class PyMath := {
  atan2 : float -> float -> float;
  degrees : float -> float;
  float_mod : float -> float -> float
}.

(** ** Qt values *)

Module Qt.

Record QPointF := mkPoint { x : float; y : float }.

Record QRectF := mkRect { left : float; top : float; width : float; height : float }.

(** [QTransform]: only the identity and [scale(sx, sy)] occur. *)
Inductive QTransform :=
| Identity
| Scale (sx sy : float).

Definition map_point (t : QTransform) (p : QPointF) : QPointF :=
  match t with
  | Identity => p
  | Scale sx sy => mkPoint (sx * x p)%float (sy * y p)%float
  end.

(** A [QPainterPath] as the calls that built it.  Curved elements are kept
    with the transform applied to them, as Qt computes their control
    points. *)
Inductive path_element :=
| MoveTo (p : QPointF)
| LineTo (p : QPointF)
| ArcTo (r : QRectF) (startAngle sweepLength : float)
| AddRoundedRect (r : QRectF) (xRadius yRadius : float)
| CloseSubpath
| Mapped (t : QTransform) (e : path_element).

Definition QPainterPath := list path_element.

(** [isEmpty()]: no element, or nothing but a [moveTo]. *)
Definition isEmpty (p : QPainterPath) : bool :=
  forallb (fun e => match e with MoveTo _ => true | _ => false end) p.

(** [closeSubpath()]; closing a path that was just closed changes nothing. *)
Definition closeSubpath (p : QPainterPath) : QPainterPath :=
  match last p with
  | Some CloseSubpath => p
  | _ => p ++ [CloseSubpath]
  end.

(** [transform.map(path)] *)
Definition map_element (t : QTransform) (e : path_element) : path_element :=
  match e with
  | MoveTo p => MoveTo (map_point t p)
  | LineTo p => LineTo (map_point t p)
  | CloseSubpath => CloseSubpath
  | e => Mapped t e
  end.

Inductive cap_style := FlatCap | RoundCap.
Inductive join_style := BevelJoin | RoundJoin.

(** The objects the parsers return. *)
Inductive item :=
| Path (p : QPainterPath)
    (** a [QPainterPath] *)
| Stroke (p : QPainterPath) (w : float) (cap : cap_style) (join : join_style)
    (** [QPainterPathStroker.createStroke(p)] with [setWidth(w)] *)
| QGraphicsEllipseItem (r : QRectF) (t : QTransform)
| QGraphicsRectItem (r : QRectF) (t : QTransform).

(** [transform.map(it)] on a path, [it.setTransform(transform, True)] on a
    graphics item (whose transform was the identity). *)
Definition transformed (t : QTransform) (it : item) : item :=
  match it with
  | Path p => Path (map_element t <$> p)
  | Stroke p w c j => Stroke (map_element t <$> p) w c j
  | QGraphicsEllipseItem r _ => QGraphicsEllipseItem r t
  | QGraphicsRectItem r _ => QGraphicsRectItem r t
  end.

End Qt.

(** ** The Gerber interpreter: [GerberViewer.parse_gerber] *)

Module Gerber.

Import PyStr Qt.
Local Open Scope char_scope.

(** *** The regular expressions *)

(** [re.search(r'X(\d)(\d)', line)], giving [int(m.group(2))]. *)
Fixpoint search_format (s : string) : option N :=
  match s with
  | EmptyString => None
  | String c r =>
      match r with
      | String a (String b _) =>
          if (c =? "X") && is_digit a && is_digit b
          then Some (Z.to_N (digit_val b))
          else search_format r
      | _ => None
      end
  end.

(** The longest [p] such that [s] is [p], a star, a percent sign and
    anything, with no newline in [p]: what a greedy dot-star captures before
    the last star-percent. *)
Fixpoint before_star_percent (s : string) : option string :=
  match s with
  | EmptyString => None
  | String c r =>
      match (if c =? "010" then None else before_star_percent r) with
      | Some p => Some (String c p)
      | None => if startswith s "*%" then Some EmptyString else None
      end
  end.

(** [re.match(r'%ADD(\d+)([A-Z]),(.+)\*%', line)], giving [int(group(1))],
    [group(2)] and [group(3)]. *)
Definition match_aperture (line : string) : option (Z * ascii * string) :=
  match line with
  | String "%" (String "A" (String "D" (String "D" r))) =>
      match span is_digit r with
      | (String d ds, String sh (String "," (String c r3))) =>
          if is_upper sh && negb (c =? "010") then
            match before_star_percent r3 with
            | Some g => Some (int (String d ds), sh, String c g)
            | None => None
            end
          else None
      | _ => None
      end
  | _ => None
  end.

(** [re.search(r'D0?' + c + r'\*?', line)] for a digit [c] *)
Definition search_mode (c : ascii) (line : string) : bool :=
  contains (String "D" (String c EmptyString)) line
  || contains (String "D" (String "0" (String c EmptyString))) line.

(** [re.search(r'D0?(\d+)\*?', line)], giving [int(mdc.group(1))]. *)
Fixpoint search_dcode (s : string) : option Z :=
  match s with
  | EmptyString => None
  | String c r =>
      if c =? "D" then
        match r with
        | String "0" r0 =>
            match fst (span is_digit r0) with
            | EmptyString => Some 0%Z
            | ds => Some (int ds)
            end
        | _ =>
            match fst (span is_digit r) with
            | EmptyString => search_dcode r
            | ds => Some (int ds)
            end
        end
      else search_dcode r
  end.

(** [-?\d+] at the head of [s]: the token and what follows it. *)
Definition signed_digits (s : string) : option (string * string) :=
  match s with
  | String "-" r =>
      match span is_digit r with
      | (String d ds, r') => Some (String "-" (String d ds), r')
      | _ => None
      end
  | _ =>
      match span is_digit s with
      | (String d ds, r') => Some (String d ds, r')
      | _ => None
      end
  end.

Definition is_axis (c : ascii) : bool :=
  (c =? "X") || (c =? "Y") || (c =? "I") || (c =? "J").

(** [re.findall(r'([XYIJ])(-?\d+)', line)]: the scan resumes after each
    match; [fuel] bounds the number of positions tried. *)
Fixpoint findall_from (fuel : nat) (s : string) : list (ascii * string) :=
  match fuel, s with
  | S f, String c r =>
      if is_axis c then
        match signed_digits r with
        | Some (tok, r') => (c, tok) :: findall_from f r'
        | None => findall_from f r
        end
      else findall_from f r
  | _, _ => []
  end.

Definition findall_coords (line : string) : list (ascii * string) :=
  findall_from (String.length line) line.

(** *** State *)

(** The fields of [GerberViewer] the parsers read and write (set in
    [__init__]). *)
Record viewer := mkViewer {
  dec_d : N;
  aperture_macros : gmap Z (ascii * list float);
  current_pos : QPointF;
  current_aperture : option Z
}.

(** [GerberViewer.__init__] *)
Definition init : viewer :=
  mkViewer 5 ∅ (mkPoint 0 0) None.

Inductive interpolation := linear | cw_arc | ccw_arc.

(** The local variables of [parse_gerber]. *)
Record locals := mkLocals {
  items : list item;
  polygon_mode : bool;
  polygon_path : option QPainterPath;
  interpolation_mode : interpolation;
  unitfactor : float
}.

Inductive mode := flash | move | draw.

(** *** [_get_aperture_width] *)
Definition _get_aperture_width (v : viewer) : float :=
  match current_aperture v with
  | None | Some 0%Z => 0.2%float
  | Some c =>
      match aperture_macros v !! c with
      | None => 0.2%float
      | Some (_, []) => 0.2%float
      | Some (_, p0 :: _) => (p0 / 2)%float
      end
  end.

(** *** [_create_arc_path] *)

(** The sweep of the arc from [angle1] to [angle2]. *)
Definition arc_sweep (clockwise : bool) (angle1 angle2 : float) : float :=
  if clockwise then
    if (angle1 <? angle2)%float then (angle2 - angle1 - 360)%float
    else (angle2 - angle1)%float
  else
    if (angle2 <? angle1)%float then (angle2 - angle1 + 360)%float
    else (angle2 - angle1)%float.

Definition _create_arc_path `{PyMath} (start end_ center : QPointF)
    (clockwise : bool) : outcome (option QPainterPath) :=
  let dx1 := (x start - x center)%float in
  let dy1 := (y start - y center)%float in
  let dx2 := (x end_ - x center)%float in
  let dy2 := (y end_ - y center)%float in
  match PyFloat.pow2 dx1, PyFloat.pow2 dy1 with
  | Some sx, Some sy =>
      let radius := PyFloat.pow_half (sx + sy) in
      if (radius =? 0)%float then Return None
      else
        let angle1 := float_mod (degrees (atan2 dy1 dx1)) 360 in
        let angle2 := float_mod (degrees (atan2 dy2 dx2)) 360 in
        let sweep := arc_sweep clockwise angle1 angle2 in
        let rect := mkRect (x center - radius) (y center - radius)
                           (2 * radius) (2 * radius) in
        Return (Some [MoveTo start; ArcTo rect (- angle1) (- sweep)])
  | _, _ => Raise OverflowError
  end.

(** *** Coordinates *)

(** [try: vals[axis] = int(num_s) / (10 ** self.dec_d) * unitfactor]: a
    token whose quotient overflows is passed over ([except: pass]). *)
Definition put_coord (d : N) (uf : float) (vals : gmap ascii float)
    (tok : ascii * string) : gmap ascii float :=
  match PyFloat.int_truediv (int tok.2) (10 ^ Z.of_N d) with
  | Some q => <[tok.1 := (q * uf)%float]> vals
  | None => vals
  end.

(** The loop filling [vals]; a later token of an axis replaces an earlier
    one. *)
Definition coord_vals (d : N) (uf : float) (coords : list (ascii * string))
    : gmap ascii float :=
  foldl (put_coord d uf) ∅ coords.

(** [new_pos] *)
Definition resolve (vals : gmap ascii float) (cur : QPointF) : QPointF :=
  mkPoint (default (x cur) (vals !! "X")) (default (y cur) (vals !! "Y")).

(** *** The body of the loop over the lines of the file *)

Definition detect_mode (line : string) : option mode :=
  if search_mode "3" line then Some flash
  else if search_mode "2" line then Some move
  else if search_mode "1" line then Some draw
  else None.

Definition select_aperture (line : string) (v : viewer) : viewer :=
  match search_dcode line with
  | Some c =>
      if decide (is_Some (aperture_macros v !! c))
      then mkViewer (dec_d v) (aperture_macros v) (current_pos v) (Some c)
      else v
  | None => v
  end.

Definition set_pos (p : QPointF) (v : viewer) : viewer :=
  mkViewer (dec_d v) (aperture_macros v) p (current_aperture v).

Definition add_item (it : item) (l : locals) : locals :=
  mkLocals (items l ++ [it]) (polygon_mode l) (polygon_path l)
           (interpolation_mode l) (unitfactor l).

Definition set_path (p : option QPainterPath) (l : locals) : locals :=
  mkLocals (items l) (polygon_mode l) p (interpolation_mode l) (unitfactor l).

(** The params of a definition: [float(p.strip()) * unitfactor] for each
    part that parses, [[0.2 * unitfactor]] when none does. *)
Definition aperture_params (uf : float) (g3 : string) : list float :=
  match omap (fun p => (fun f => f * uf)%float <$> py_float (strip p))
             (split_Xx g3) with
  | [] => [(0.2 * uf)%float]
  | ps => ps
  end.

(** [if mode == 'move'] *)
Definition exec_move (new_pos : QPointF) (v : viewer) (l : locals)
    : viewer * locals :=
  (set_pos new_pos v,
   match polygon_mode l, polygon_path l with
   | true, Some p =>
       if isEmpty p then set_path (Some [MoveTo new_pos]) l else l
   | _, _ => l
   end).

(** [elif mode == 'draw'], up to the assignment of [current_pos] *)
Definition exec_draw `{PyMath} (scene_factor : float)
    (vals : gmap ascii float) (new_pos : QPointF) (v : viewer) (l : locals)
    : outcome locals :=
       match polygon_mode l, polygon_path l with
       | true, Some p => Return (set_path (Some (p ++ [LineTo new_pos])) l)
       | _, _ =>
           match interpolation_mode l with
           | linear =>
               let path := [MoveTo (current_pos v); LineTo new_pos] in
               let width := (_get_aperture_width v * scene_factor)%float in
               Return (add_item (Stroke path width RoundCap RoundJoin) l)
           | arc =>
               let i := default 0%float (vals !! "I") in
               let j := default 0%float (vals !! "J") in
               let center := mkPoint (x (current_pos v) + i)
                                     (y (current_pos v) + j) in
               path ← _create_arc_path (current_pos v) new_pos center
                        (match arc with cw_arc => true | _ => false end);
               match path with
               | Some p =>
                   let width := (_get_aperture_width v * scene_factor)%float in
                   Return (add_item (Stroke p width FlatCap BevelJoin) l)
               | None => Return l
               end
           end
       end.

(** [elif mode == 'flash'], up to the assignment of [current_pos] *)
Definition exec_flash (scene_factor : float) (new_pos : QPointF)
    (v : viewer) (l : locals) : outcome locals :=
  let centred w h :=
    mkRect (x new_pos - w / 2) (y new_pos - h / 2) w h in
  let second w params :=
    match params with
    | _ :: p1 :: _ => (p1 * scene_factor)%float
    | _ => w
    end in
  let known :=
    match current_aperture v with
    | None | Some 0%Z => None
    | Some c => aperture_macros v !! c
    end in
       match known with
       | None =>
           let size := (0.2 * scene_factor)%float in
           Return (add_item (QGraphicsEllipseItem (centred size size) Identity) l)
       | Some (_, []) => Raise IndexError
       | Some (shape, ((p0 :: _) as params)) =>
           if shape =? "C" then
             let size := (p0 * scene_factor)%float in
             Return (add_item (QGraphicsEllipseItem (centred size size) Identity) l)
           else if shape =? "R" then
             let w := (p0 * scene_factor)%float in
             let h := second w params in
             Return (add_item (QGraphicsRectItem (centred w h) Identity) l)
           else if shape =? "O" then
             let w := (p0 * scene_factor)%float in
             let h := second w params in
             let r := (PyFloat.min w h / 2)%float in
             Return (add_item (Path [AddRoundedRect (centred w h) r r]) l)
           else Return l
       end.

Definition set_dec_d (d : N) (v : viewer) : viewer :=
  mkViewer d (aperture_macros v) (current_pos v) (current_aperture v).

Definition define_aperture (c : Z) (a : ascii * list float) (v : viewer)
    : viewer :=
  mkViewer (dec_d v) (<[c := a]> (aperture_macros v)) (current_pos v)
           (current_aperture v).

Definition set_unitfactor (uf : float) (l : locals) : locals :=
  mkLocals (items l) (polygon_mode l) (polygon_path l)
           (interpolation_mode l) uf.

(** [G01], [G02], [G03] at the head of the line *)
Definition select_interpolation (line : string) (l : locals) : locals :=
  let set m := mkLocals (items l) (polygon_mode l) (polygon_path l) m
                        (unitfactor l) in
  if startswith line "G01" then set linear
  else if startswith line "G02" then set cw_arc
  else if startswith line "G03" then set ccw_arc
  else l.

(** [G36]: a new, empty path. *)
Definition region_start (line : string) (l : locals) : locals :=
  if startswith line "G36"
  then mkLocals (items l) true (Some []) (interpolation_mode l) (unitfactor l)
  else l.

(** [G37]: the path, if it has a segment, is closed and appended.  The
    appended object stays bound to [polygon_path]; the only call it can
    still receive is another [closeSubpath], which leaves it as it is. *)
Definition region_end (line : string) (l : locals) : locals :=
  if startswith line "G37" then
    match polygon_path l with
    | Some p =>
        if isEmpty p
        then mkLocals (items l) false (Some p) (interpolation_mode l)
                      (unitfactor l)
        else mkLocals (items l ++ [Path (closeSubpath p)]) false
                      (Some (closeSubpath p)) (interpolation_mode l)
                      (unitfactor l)
    | None => mkLocals (items l) false None (interpolation_mode l)
                       (unitfactor l)
    end
  else l.

(** One iteration of [for raw in f].  The viewer is returned also when the
    iteration raises, as assignments to [self] made before that remain. *)
Definition step `{PyMath} (scene_factor : float) (v : viewer) (l : locals)
    (raw : string) : viewer * outcome locals :=
  let line := strip raw in
  if startswith line "%FSLA" then
    (match search_format line with Some d => set_dec_d d v | None => v end,
     Return l)
  else if startswith line "%MO" then
    (v, Return (set_unitfactor
                  (if contains "IN" (upper line) then 25.4 else 1)%float l))
  else
    let l := select_interpolation line l in
    if startswith line "%ADD" then
      (match match_aperture line with
       | Some (c, shape, g3) =>
           define_aperture c (shape, aperture_params (unitfactor l) g3) v
       | None => v
       end, Return l)
    else
      let l := region_end line (region_start line l) in
      if (line =? "")%string || startswith line "%" || startswith line "G04"
      then (v, Return l)
      else
        let mode := detect_mode line in
        let v := select_aperture line v in
        let vals := coord_vals (dec_d v) (unitfactor l) (findall_coords line) in
        let new_pos := resolve vals (current_pos v) in
        match mode with
        | Some move =>
            let '(v', l') := exec_move new_pos v l in (v', Return l')
        | Some draw =>
            match exec_draw scene_factor vals new_pos v l with
            | Return l' => (set_pos new_pos v, Return l')
            | Raise e => (v, Raise e)
            end
        | Some flash =>
            match exec_flash scene_factor new_pos v l with
            | Return l' => (set_pos new_pos v, Return l')
            | Raise e => (v, Raise e)
            end
        | None => (v, Return l)
        end.

(** The loop. *)
Fixpoint run `{PyMath} (scene_factor : float) (v : viewer) (l : locals)
    (lines : list string) : viewer * outcome locals :=
  match lines with
  | [] => (v, Return l)
  | raw :: rest =>
      match step scene_factor v l raw with
      | (v', Return l') => run scene_factor v' l' rest
      | (v', Raise e) => (v', Raise e)
      end
  end.

(** The transform of the final pass: [scale(1, -1)]. *)
Definition flip_y : QTransform := Scale 1 (-1).

(** [parse_gerber(self, filepath, scene_factor)]: the viewer it leaves
    behind and what the call returns or raises. *)
Definition parse_gerber `{PyMath} (v : viewer) (f : file)
    (scene_factor : float) : viewer * outcome (list item) :=
  let v0 := mkViewer (dec_d v) ∅ (mkPoint 0 0) None in
  let l0 := mkLocals [] false None linear 1 in
  match f with
  | Unreadable => (v0, Raise OSError)
  | Readable lines =>
      match run scene_factor v0 l0 lines with
      | (v', Return l) => (v', Return (transformed flip_y <$> items l))
      | (v', Raise e) => (v', Raise e)
      end
  end.

End Gerber.

(** ** The Excellon interpreter: [GerberViewer.parse_drill] *)

Module Drill.

Import PyStr Qt.
Local Open Scope char_scope.

(** *** The regular expressions *)

(** [FORMAT\s*=\s*(\d+)\.(\d+)] at the head of [s], giving
    [int(group(2))]. *)
Definition format_here (s : string) : option N :=
  match s with
  | String "F" (String "O" (String "R" (String "M" (String "A"
      (String "T" r))))) =>
      match snd (span is_space r) with
      | String "=" r1 =>
          match span is_digit (snd (span is_space r1)) with
          | (String _ _, String "." r2) =>
              match fst (span is_digit r2) with
              | String d ds => Some (Z.to_N (int (String d ds)))
              | EmptyString => None
              end
          | _ => None
          end
      | _ => None
      end
  | _ => None
  end.

(** [re.search(r'FORMAT\s*=\s*(\d+)\.(\d+)', uline)] *)
Fixpoint search_format (s : string) : option N :=
  match format_here s with
  | Some d => Some d
  | None =>
      match s with
      | String _ r => search_format r
      | EmptyString => None
      end
  end.

Definition is_digit_or_dot (c : ascii) : bool := is_digit c || (c =? ".").

(** [re.match(r'^T0*(\d+)\s*C\s*([0-9.]+)', uline)], giving
    [int(group(1))] and [group(2)]. *)
Definition match_tool (uline : string) : option (Z * string) :=
  match uline with
  | String "T" r =>
      match span is_digit r with
      | (String d ds, r1) =>
          match snd (span is_space r1) with
          | String "C" r2 =>
              match fst (span is_digit_or_dot (snd (span is_space r2))) with
              | String c cs => Some (int (String d ds), String c cs)
              | EmptyString => None
              end
          | _ => None
          end
      | _ => None
      end
  | _ => None
  end.

(** [re.match(r'^T0*(\d+)', uline)], giving [int(group(1))]. *)
Definition match_select (uline : string) : option Z :=
  match uline with
  | String "T" r =>
      match fst (span is_digit r) with
      | String d ds => Some (int (String d ds))
      | EmptyString => None
      end
  | _ => None
  end.

Definition is_xy (c : ascii) : bool :=
  let u := upper_char c in (u =? "X") || (u =? "Y").

Definition sign_of (s : string) : string * string :=
  match s with
  | String "+" r => ("+"%string, r)
  | String "-" r => ("-"%string, r)
  | _ => (EmptyString, s)
  end.

(** [[+-]?[0-9]*\.[0-9]+] at the head of [s] *)
Definition decimal_here (s : string) : option (string * string) :=
  let '(sg, r) := sign_of s in
  match span is_digit r with
  | (ip, String "." r1) =>
      match span is_digit r1 with
      | (String d ds, r2) => Some (sg +:+ ip +:+ String "." (String d ds), r2)
      | _ => None
      end
  | _ => None
  end.

(** [[+-]?[0-9]+] at the head of [s] *)
Definition integer_here (s : string) : option (string * string) :=
  let '(sg, r) := sign_of s in
  match span is_digit r with
  | (String d ds, r1) => Some (sg +:+ String d ds, r1)
  | _ => None
  end.

(** [re.findall(r'([XY])' + value, line, re.IGNORECASE)] with
    [axis.upper()] applied; [fuel] bounds the positions tried. *)
Fixpoint findall_from (value : string -> option (string * string))
    (fuel : nat) (s : string) : list (ascii * string) :=
  match fuel, s with
  | S f, String c r =>
      if is_xy c then
        match value r with
        | Some (tok, r') => (upper_char c, tok) :: findall_from value f r'
        | None => findall_from value f r
        end
      else findall_from value f r
  | _, _ => []
  end.

Definition findall_decimal (line : string) : list (ascii * string) :=
  findall_from decimal_here (String.length line) line.

Definition findall_integer (line : string) : list (ascii * string) :=
  findall_from integer_here (String.length line) line.

(** *** State: the local variables of [parse_drill] *)
Record state := mkState {
  drill_tools : gmap Z float;
  drill_hits : list item;
  current_tool : option Z;
  current_pos : QPointF;
  drill_decimals : N;
  unitfactor : float;
  incremental_mode : bool
}.

(** *** Coordinates of a record *)

(** Strategy 1: [coords[axis.upper()] = float(val)] for each token with a
    decimal point. *)
Fixpoint decimal_coords (coords : gmap ascii float)
    (toks : list (ascii * string)) : outcome (gmap ascii float) :=
  match toks with
  | [] => Return coords
  | (axis, val) :: rest =>
      match py_float val with
      | Some f => decimal_coords (<[axis := f]> coords) rest
      | None => Raise ValueError
      end
  end.

(** The decimal places used for a bare integer token. *)
Definition temp_decimals (decimals : N) (val : string) : N :=
  if (String.length (lstrip_sign val) =? 6)%nat then 4%N else decimals.

(** [int(val) / (10 ** temp_decimals)] *)
Definition integer_value (decimals : N) (val : string) : option float :=
  PyFloat.int_truediv (int val) (10 ^ Z.of_N (temp_decimals decimals val)).

(** Strategy 2: the bare integer tokens. *)
Fixpoint integer_coords (decimals : N) (coords : gmap ascii float)
    (toks : list (ascii * string)) : outcome (gmap ascii float) :=
  match toks with
  | [] => Return coords
  | (axis, val) :: rest =>
      match integer_value decimals val with
      | Some f => integer_coords decimals (<[axis := f]> coords) rest
      | None => Raise OverflowError
      end
  end.

(** The dictionary [coords] of a line. *)
Definition line_coords (decimals : N) (line : string)
    : outcome (gmap ascii float) :=
  coords ← decimal_coords ∅ (findall_decimal line);
  if decide (coords = ∅)
  then integer_coords decimals ∅ (findall_integer line)
  else Return coords.

(** *** The body of the loop *)

Definition detect_unit (uline : string) (uf : float) : float :=
  if contains "METRIC" uline || contains "MM" uline then 1%float
  else if contains "INCH" uline then 25.4%float
  else uf.

Definition detect_incremental (uline : string) (inc : bool) : bool :=
  if contains "G90" uline then false
  else if contains "G91" uline || contains "M95" uline then true
  else inc.

Definition flip_y : QTransform := Scale 1 (-1).

(** [if coords:] the new position and the hit, if a known tool of positive
    diameter is selected. *)
Definition record_hit (coords : gmap ascii float) (st : state) : state :=
  let uf := unitfactor st in
  let x_move := default 0%float (coords !! "X") in
  let y_move := default 0%float (coords !! "Y") in
  let px :=
    if incremental_mode st then (x (current_pos st) + uf * x_move)%float
    else match coords !! "X" with
         | Some _ => (uf * x_move)%float
         | None => x (current_pos st)
         end in
  let py :=
    if incremental_mode st then (y (current_pos st) + uf * y_move)%float
    else match coords !! "Y" with
         | Some _ => (uf * y_move)%float
         | None => y (current_pos st)
         end in
  let hits :=
    match current_tool st ≫= (fun t => drill_tools st !! t) with
    | Some dia =>
        if (0 <? dia)%float
        then drill_hits st ++
             [QGraphicsEllipseItem
                (mkRect (px - dia / 2) (py - dia / 2) dia dia) flip_y]
        else drill_hits st
    | None => drill_hits st
    end in
  mkState (drill_tools st) hits (current_tool st) (mkPoint px py)
          (drill_decimals st) (unitfactor st) (incremental_mode st).

(** The lines the loop passes over: comments and header markers. *)
Definition skipped (uline : string) : bool :=
  startswith uline ";" || startswith uline "M48" || (uline =? "%")%string.

(** One iteration of [for line in f]. *)
Definition step (st : state) (line : string) : outcome state :=
  let uline := upper (strip line) in
  if skipped uline
  then Return st
  else
    let uf := detect_unit uline (unitfactor st) in
    let inc := detect_incremental uline (incremental_mode st) in
    let decimals := default (drill_decimals st) (search_format uline) in
    tools ← match match_tool uline with
            | Some (tool_id, dia) =>
                match py_float dia with
                | Some d => Return (<[tool_id := (d * uf)%float]> (drill_tools st))
                | None => Raise ValueError
                end
            | None => Return (drill_tools st)
            end;
    let tool :=
      if startswith uline "T" && negb (contains "C" uline)
      then match match_select uline with
           | Some t => Some t
           | None => current_tool st
           end
      else current_tool st in
    let st' := mkState tools (drill_hits st) tool (current_pos st) decimals
                       uf inc in
    coords ← line_coords decimals line;
    if decide (coords = ∅) then Return st'
    else Return (record_hit coords st').

(** The loop. *)
Fixpoint run (st : state) (lines : list string) : outcome state :=
  match lines with
  | [] => Return st
  | line :: rest => st' ← step st line; run st' rest
  end.

(** The variables as set before the [try]: inches, absolute positions, the
    decimal places of the viewer. *)
Definition initial (v : Gerber.viewer) : state :=
  mkState ∅ [] None (mkPoint 0 0) (Gerber.dec_d v) 25.4 false.

(** [parse_drill(self, filepath)]: everything raised inside the [try],
    the failure of [open] included, ends in [return []].  (On a file
    without lines the statement after the loop raises; the hits are empty
    then as well.) *)
Definition parse_drill (v : Gerber.viewer) (f : file) : outcome (list item) :=
  match f with
  | Unreadable => Return []
  | Readable lines =>
      match run (initial v) lines with
      | Return st => Return (drill_hits st)
      | Raise _ => Return []
      end
  end.

End Drill.

(** ** The polygon builder of [_extract_polygons_from_items] *)

(** The Shapely operations [coords_close_and_fix] calls.  [Polygon] and
    [buffer] may raise; validity, emptiness and area are computed by the
    library. *)
Class Shapely := {
  geometry : Type;
  Polygon : list (float * float) -> option geometry;
  is_valid : geometry -> bool;
  is_empty : geometry -> bool;
  area : geometry -> float;
  buffer0 : geometry -> option geometry
}.

Module Extract.

(** [a != b] on coordinate pairs *)
Definition differ (a b : float * float) : bool :=
  negb ((fst a =? fst b)%float && (snd a =? snd b)%float).

(** The ring is closed: [coords[0] == coords[-1]]. *)
Definition is_closed (coords : list (float * float)) : bool :=
  match head coords, last coords with
  | Some a, Some b => negb (differ a b)
  | _, _ => false
  end.

(** [coords_close_and_fix(coords)]: the list [coords] as the call leaves it
    (the closing vertex is appended in place) and the polygon returned, or
    [None]. *)
Definition coords_close_and_fix `{Shapely} (coords : list (float * float))
    : list (float * float) * option geometry :=
  if (length coords <? 3)%nat then (coords, None)
  else
    let coords :=
      match head coords, last coords with
      | Some a, Some b => if differ a b then coords ++ [a] else coords
      | _, _ => coords
      end in
    (coords,
     poly ← Polygon coords;
     poly ← (if is_valid poly then Some poly else buffer0 poly);
     if is_valid poly && negb (is_empty poly) && (1e-9 <? area poly)%float
     then Some poly else None).

End Extract.

(** ** Reference implementations of the two library interfaces

    The statements below hold for every implementation of [PyMath] and of
    [Shapely].  To run the interpreters on concrete files one of each is
    needed; these are written in binary64 arithmetic and stand for the C
    library and for GEOS in the closed examples only. *)

Module Libm.

Local Open Scope float_scope.

Definition pi : float := 0x1.921fb54442d18p+1.

(** [math.degrees]: [x * (180 / pi)]. *)
Definition degrees (x : float) : float := x * (180 / pi).

(** The numerator and the binary exponent of a finite float. *)
Definition to_Z_exp (x : float) : option (Z * Z) :=
  match Prim2SF x with
  | S754_zero _ => Some (0%Z, 0%Z)
  | S754_finite s m e => Some (if s then Z.neg m else Z.pos m, e)
  | _ => None
  end.

(** [m * 2 ^ e], exactly when representable. *)
Definition of_Z_exp (m e : Z) : float :=
  if (0 <=? e)%Z then PyFloat.of_ratio (m * 2 ^ e) 1
  else PyFloat.of_ratio m (2 ^ (- e)).

(** Python's [x % y] on floats: the exact remainder of the C library's
    [fmod], moved to the sign of [y]. *)
Definition float_mod (x y : float) : float :=
  match to_Z_exp x, to_Z_exp y with
  | Some (mx, ex), Some (my, ey) =>
      if (my =? 0)%Z then nan
      else
        let e := Z.min ex ey in
        let r := of_Z_exp (Z.rem (mx * 2 ^ (ex - e)) (my * 2 ^ (ey - e))) e in
        if r =? 0 then (if (my <? 0)%Z then -0 else 0)
        else if Bool.eqb (r <? 0) (y <? 0) then r else r + y
  | None, _ => nan
  | Some _, None => if PrimFloat.is_nan y then nan
                    else if x =? 0 then (if y <? 0 then -0 else 0)
                    else if Bool.eqb (x <? 0) (y <? 0) then x else y
  end.

(** [atan t] for small [t], by its Taylor polynomial. *)
Definition atan_small (t : float) : float :=
  let s := t * t in
  t * (1 - s * (1 / 3 - s * (1 / 5 - s * (1 / 7 - s * (1 / 9 - s * (1 / 11
       - s * (1 / 13 - s * (1 / 15 - s * (1 / 17 - s * (1 / 19)))))))))).

(** [atan t = 2 * atan (halve t)] *)
Definition halve (t : float) : float := t / (1 + sqrt (1 + t * t)).

(** [atan t] for [0 <= t <= 1] *)
Definition atan_unit (t : float) : float :=
  8 * atan_small (halve (halve (halve t))).

Definition atan2 (y x : float) : float :=
  if PrimFloat.is_nan x || PrimFloat.is_nan y then nan
  else
    let a := abs x in
    let b := abs y in
    let base :=
      if b =? 0 then 0
      else if PrimFloat.is_infinity a && PrimFloat.is_infinity b then pi / 4
      else if b <=? a then atan_unit (b / a)
      else pi / 2 - atan_unit (a / b) in
    let angle := if PrimFloat.get_sign x then pi - base else base in
    if PrimFloat.get_sign y then - angle else angle.

Definition math : PyMath :=
  Build_PyMath atan2 degrees float_mod.

End Libm.

Module Rings.

Local Open Scope float_scope.

Definition point : Type := float * float.

(** Twice the signed area of the triangle [a b c]. *)
Definition orient (a b c : point) : float :=
  (fst b - fst a) * (snd c - snd a) - (snd b - snd a) * (fst c - fst a).

Definition between (u v w : float) : bool :=
  ((u <=? w) && (w <=? v)) || ((v <=? w) && (w <=? u)).

(** [c] lies on the segment [a b] *)
Definition on_segment (a b c : point) : bool :=
  (orient a b c =? 0) && between (fst a) (fst b) (fst c)
  && between (snd a) (snd b) (snd c).

(** The segments [a b] and [c d] meet. *)
Definition meet (a b c d : point) : bool :=
  ((orient a b c * orient a b d <? 0) && (orient c d a * orient c d b <? 0))
  || on_segment a b c || on_segment a b d
  || on_segment c d a || on_segment c d b.

Definition edges (ring : list point) : list (point * point) :=
  zip ring (tail ring).

(** No edge meets a later edge other than its neighbour; [first] tells
    whether [e] is the first edge of the ring, whose neighbours are the
    second and the last. *)
Fixpoint clear_of (first : bool) (e : point * point)
    (later : list (point * point)) : bool :=
  match later with
  | [] => true
  | f :: rest =>
      (match rest with
       | [] => first
       | _ => false
       end || negb (meet (fst e) (snd e) (fst f) (snd f)))
      && clear_of first e rest
  end.

Fixpoint simple (first : bool) (es : list (point * point)) : bool :=
  match es with
  | e :: ((_ :: later) as rest) => clear_of first e later && simple false rest
  | _ => true
  end.

Definition closed (ring : list point) : bool :=
  match head ring, last ring with
  | Some a, Some b => (fst a =? fst b) && (snd a =? snd b)
  | _, _ => false
  end.

Fixpoint shoelace (ring : list point) : float :=
  match ring with
  | a :: ((b :: _) as rest) => (fst a * snd b - fst b * snd a) + shoelace rest
  | _ => 0
  end.

(** A polygon is its exterior ring; the empty polygon is the empty ring.
    The repair of an invalid ring gives the empty polygon. *)
Definition shapely : Shapely :=
  {| geometry := list point;
     Polygon := fun coords =>
       if (length coords <? 4)%nat then None else Some coords;
     is_valid := fun ring =>
       match ring with
       | [] => true
       | _ => closed ring && simple true (edges ring)
       end;
     is_empty := fun ring => match ring with [] => true | _ => false end;
     area := fun ring => abs (shoelace ring) / 2;
     buffer0 := fun _ => Some [] |}.

End Rings.

(** ** The files of the end-to-end scenarios *)

Module Scenario.

Local Open Scope string_scope.

(** Scenario A of the specification. *)
Definition A : list string :=
  ["%FSLAX25Y25*%"; "%MOMM*%"; "%ADD10C,0.5*%"; "D10*";
   "X1000000Y1000000D02*"; "X2000000Y1000000D01*"].

(** An aperture selected while clockwise arcs are being drawn. *)
Definition select_in_arc_mode : list string :=
  ["%ADD10C,0.5*%"; "G02*"; "D10*"].

(** A file declaring three decimal places, and a file declaring none. *)
Definition three_places : list string := ["%FSLAX23Y23*%"].
Definition no_format : list string := ["X1000Y0D02*"; "X2000Y0D01*"].

(** A drill file declaring three decimal places before a six-digit
    record. *)
Definition drill_format_3 : list string :=
  ["M48"; "FORMAT=2.3"; "METRIC"; "T01C0.80"; "T01"; "X010000Y020000"].

(** The command selecting aperture [10 + k], alone on its line: [D10*] to
    [D19*]. *)
Definition select_command (k : N) : string :=
  String "D" (String "1" (String (ascii_of_N (48 + k)) "*")).

(** The centre line the specification expects of the stroke of scenario
    A. *)
Definition A_line : Qt.QPainterPath :=
  [Qt.MoveTo (Qt.mkPoint 10 (-10)); Qt.LineTo (Qt.mkPoint 20 (-10))].

End Scenario.

(** ** The net-list reader: [IPCParser.parse] *)

Module Ipc.

Import PyStr.
Local Open Scope char_scope.

(** [X([+-]?\d+)Y([+-]?\d+)] at the head of [s], giving [group(1)] and
    [group(2)]. *)
Definition coord_here (s : string) : option (string * string) :=
  match s with
  | String "X" r =>
      match Drill.integer_here r with
      | Some (xs, String "Y" r') =>
          match Drill.integer_here r' with
          | Some (ys, _) => Some (xs, ys)
          | None => None
          end
      | _ => None
      end
  | _ => None
  end.

(** [coord_regex.search(line)] *)
Fixpoint search_coord (s : string) : option (string * string) :=
  match coord_here s with
  | Some m => Some m
  | None =>
      match s with
      | String _ r => search_coord r
      | EmptyString => None
      end
  end.

(** [line.split()[0]], when [line.split()] is not empty. *)
Definition first_part (line : string) : option string :=
  match fst (span (fun c => negb (is_space c)) (lstrip line)) with
  | EmptyString => None
  | part => Some part
  end.

(** The dictionary [nets], in insertion order. *)
Definition nets : Type := list (string * list (float * float)).

(** [nets[net_name]] *)
Fixpoint lookup (net_name : string) (ns : nets) : option (list (float * float)) :=
  match ns with
  | [] => None
  | (n, pts) :: rest => if (n =? net_name)%string then Some pts
                        else lookup net_name rest
  end.

(** [if net_name not in nets: nets[net_name] = []] and
    [nets[net_name].append(pt)] *)
Fixpoint add_point (net_name : string) (pt : float * float) (ns : nets) : nets :=
  match ns with
  | [] => [(net_name, [pt])]
  | (n, pts) :: rest =>
      if (n =? net_name)%string then (n, pts ++ [pt]) :: rest
      else (n, pts) :: add_point net_name pt rest
  end.

(** What a line adds: its first part and the point of the first coordinate
    match, each coordinate [float(group) / 254]; nothing for probe records,
    the end marker, blank lines and lines without coordinates. *)
Definition record (line : string) : option (string * (float * float)) :=
  if startswith line "P " || startswith line "999" then None
  else
    match first_part line, search_coord line with
    | Some net_name, Some (xs, ys) =>
        match py_float xs, py_float ys with
        | Some fx, Some fy => Some (net_name, ((fx / 254)%float, (fy / 254)%float))
        | _, _ => None
        end
    | _, _ => None
    end.

(** One iteration of [for line in f]. *)
Definition step (ns : nets) (line : string) : nets :=
  match record line with
  | Some (net_name, pt) => add_point net_name pt ns
  | None => ns
  end.

(** [IPCParser(filename).parse()]; [open] has no handler. *)
Definition parse (f : file) : outcome nets :=
  match f with
  | Unreadable => Raise OSError
  | Readable lines => Return (foldl step [] lines)
  end.

End Ipc.

(** ** Layer order and layer transforms *)

Module Layers.

Import PyStr.
Local Open Scope string_scope.

(** [order_priority] of [open_files] *)
Definition order_priority : list string :=
  [".gbp"; ".gbo"; ".gbs"; ".gbl"; "OTHER"; ".gtl"; ".gts"; ".gto"; ".gtp"].

(** [order_priority.index("OTHER")] *)
Definition other_index : nat := 4.

(** The loop of [layer_sort_key] over [enumerate(order_priority)], from
    index [idx] on. *)
Fixpoint first_ext (lname : string) (idx : nat) (exts : list string) : option nat :=
  match exts with
  | [] => None
  | ext :: rest =>
      if (ext =? "OTHER")%string then first_ext lname (S idx) rest
      else if endswith lname ext then Some idx
      else first_ext lname (S idx) rest
  end.

(** [layer_sort_key((name, _, _))] *)
Definition layer_sort_key (name : string) : nat :=
  default other_index (first_ext (lower name) 0 order_priority).

(** The two fields [update_transforms] reads. *)
Record transform_state := mkTransform {
  mirrored : bool;
  rotation_angle : Z
}.

(** [toggle_mirror], up to the call of [update_transforms] *)
Definition toggle_mirror (t : transform_state) : transform_state :=
  mkTransform (negb (mirrored t)) (rotation_angle t).

(** [rotate_layers], up to the call of [update_transforms] *)
Definition rotate_layers (t : transform_state) : transform_state :=
  mkTransform (mirrored t) ((rotation_angle t + 90) mod 360).

End Layers.

(** ** Coordinate tokens, as the formats write them

    The reading of a signed integer token that the properties below compare
    the interpreters with: a sign, written or not, and decimal digits, the
    value being the usual one.  Digits and values are the Standard
    Library's ([Decimal.uint], [Z.of_uint]). *)

Module Token.

Import PyStr.
Local Open Scope char_scope.

Inductive sign := Bare | Plus | Minus.

Record token := mkToken {
  sgn : sign;
  digits : Decimal.uint
}.



(** The integer it denotes. *)
Definition value (t : token) : Z :=
  match sgn t with
  | Minus => - Z.of_uint (digits t)
  | _ => Z.of_uint (digits t)
  end.







End Token.

(** ** Kinds of lines *)

Module Kinds.

Import PyStr.
Local Open Scope string_scope.

(** The lines [parse_gerber] passes over: blank lines, [G04] comments and
    the directives it does not know. *)
Definition gerber_ignored (raw : string) : bool :=
  let line := strip raw in
  ((line =? "") || startswith line "%" || startswith line "G04")
  && negb (startswith line "%FSLA") && negb (startswith line "%MO")
  && negb (startswith line "%ADD").

(** The lines short enough for every [int] conversion made on them to stay
    within the interpreter's limit of 4300 digits, which the unbounded
    [PyStr.int] does not have. *)
Definition within_digit_limit (raw : string) : bool :=
  Nat.leb (String.length raw) 4300.

(** The lines that do not select circular interpolation. *)
Definition arc_free (raw : string) : bool :=
  let line := strip raw in
  negb (startswith line "G02") && negb (startswith line "G03").

(** The command selecting aperture [30 + k], alone on its line: [D30*] to
    [D39*]. *)
Definition select_30 (k : N) : string :=
  String "D" (String "3" (String (ascii_of_N (48 + k)) "*")).

(** A clockwise arc whose centre offset is 1e155 mm. *)
Definition huge_arc : list string :=
  ["G02X1I1" +:+ String.concat "" (replicate 160 "0") +:+ "D01*"].

(** The lines [parse_drill] passes over. *)
Definition drill_skipped (line : string) : bool :=
  Drill.skipped (upper (strip line)).

(** The lines of a drill file that define a tool. *)
Definition defines_tool (line : string) : bool :=
  negb (drill_skipped line)
  && bool_decide (is_Some (Drill.match_tool (upper (strip line)))).

(** The lines [IPCParser.parse] reads nothing from: probe records, the end
    marker, blank lines and lines without a coordinate pair. *)
Definition ipc_skipped (line : string) : bool :=
  startswith line "P " || startswith line "999"
  || bool_decide (Ipc.first_part line = None)
  || bool_decide (Ipc.search_coord line = None).

(** The points of the lines whose first part is [net_name], in the order of
    the lines. *)
Definition net_points (net_name : string) (lines : list string)
    : list (float * float) :=
  omap (fun line =>
          match Ipc.record line with
          | Some (n, pt) => if (n =? net_name)%string then Some pt else None
          | None => None
          end) lines.

End Kinds.

(** * Properties *)

Import Qt.

(** ** Scenario A *)

Section ScenarioA.

Context {M : PyMath}.

(** What [parse_gerber] returns on scenario A, whatever the viewer held
    before: the stroke of the select command [D10*] and the stroke of the
    draw command. *)
Lemma scenario_A_result (v : Gerber.viewer) :
  snd (Gerber.parse_gerber v (Readable Scenario.A) 1) =
  Return [Stroke [MoveTo (mkPoint 0 (-0)); LineTo (mkPoint 0 (-0))] 0.25
            RoundCap RoundJoin;
          Stroke Scenario.A_line 0.25 RoundCap RoundJoin].
Proof. vm_compute. reflexivity. Qed.

(** C1, as amended: on scenario A the stroke of the draw command, the last
    primitive returned, runs from (10, -10) to (20, -10) after the flip and
    has width 0.25 mm, half the diameter of the aperture. *)
Theorem scenario_A_last_stroke (v : Gerber.viewer) :
  exists earlier,
    snd (Gerber.parse_gerber v (Readable Scenario.A) 1) =
    Return (earlier ++ [Stroke Scenario.A_line 0.25 RoundCap RoundJoin]).
Proof.
  eexists [_]. rewrite scenario_A_result. reflexivity.
Qed.

End ScenarioA.

(** C1, as stated, fails: scenario A yields two strokes, both 0.25 mm wide,
    not the single stroke of width 0.5 mm. *)
Lemma scenario_A_not_one_half_mm_stroke :
  snd (Gerber.parse_gerber (H := Libm.math) Gerber.init
         (Readable Scenario.A) 1) =
  Return [Stroke [MoveTo (mkPoint 0 (-0)); LineTo (mkPoint 0 (-0))] 0.25
            RoundCap RoundJoin;
          Stroke Scenario.A_line 0.25 RoundCap RoundJoin]
  /\ ~ (exists p cap join,
          snd (Gerber.parse_gerber (H := Libm.math) Gerber.init
                 (Readable Scenario.A) 1) =
          Return [Stroke p 0.5 cap join]).
Proof.
  split; [apply scenario_A_result|].
  rewrite scenario_A_result. intros (p & c & j & E). discriminate E.
Qed.

(** ** Unreadable files *)

(** [parse_drill] returns a list on every file: nothing raised inside it
    passes the call boundary. *)
Lemma parse_drill_returns (v : Gerber.viewer) (f : file) :
  exists hits, Drill.parse_drill v f = Return hits.
Proof.
  unfold Drill.parse_drill. destruct f as [|lines]; [eauto|].
  destruct (Drill.run _ lines); eauto.
Qed.

(** C2 at the failing input: when the file cannot be opened, [parse_drill]
    returns the empty list, but the exception of [open] leaves
    [parse_gerber], which has no handler. *)
Theorem unreadable_file_gerber_raises `{PyMath} (v : Gerber.viewer)
    (scene_factor : float) :
  Drill.parse_drill v Unreadable = Return []
  /\ snd (Gerber.parse_gerber v Unreadable scene_factor) = Raise OSError.
Proof. split; reflexivity. Qed.

(** ** State kept between parse calls *)

Section Lifecycle.

Context {M : PyMath}.

(** The aperture table, the position and the selected aperture are made
    anew by each call: of the viewer, [parse_gerber] reads [dec_d] only. *)
Lemma parse_gerber_reads_dec_d (v1 v2 : Gerber.viewer) (f : file)
    (scene_factor : float) :
  Gerber.dec_d v1 = Gerber.dec_d v2 ->
  Gerber.parse_gerber v1 f scene_factor = Gerber.parse_gerber v2 f scene_factor.
Proof. unfold Gerber.parse_gerber. intros ->. reflexivity. Qed.

(** C7 at the failing input: the decimal places declared by one file are
    still in force when the next file, which declares none, is parsed.  The
    same two lines give a stroke from 0.01 to 0.02 mm on a fresh viewer and
    from 1 to 2 mm after [Scenario.three_places]. *)
Theorem decimal_places_leak :
  let fresh := Gerber.init in
  let used := fst (Gerber.parse_gerber fresh (Readable Scenario.three_places) 1) in
  snd (Gerber.parse_gerber fresh (Readable Scenario.no_format) 1) =
    Return [Stroke [MoveTo (mkPoint 0.01 (-0)); LineTo (mkPoint 0.02 (-0))]
              0.2 RoundCap RoundJoin]
  /\ snd (Gerber.parse_gerber used (Readable Scenario.no_format) 1) =
    Return [Stroke [MoveTo (mkPoint 1 (-0)); LineTo (mkPoint 2 (-0))]
              0.2 RoundCap RoundJoin]
  /\ Gerber.dec_d used = 3%N.
Proof. vm_compute. repeat split; reflexivity. Qed.

End Lifecycle.

(** ** Tokens and what the interpreters read *)

Section Tokens.

Import PyStr.
Local Open Scope string_scope.






End Tokens.

(** ** What the coordinate pattern of the Gerber interpreter finds *)

Section GerberScan.

Import PyStr Gerber.
Local Open Scope string_scope.














End GerberScan.

(** ** Coordinates of the Gerber interpreter *)

Section GerberCoordinates.

Import PyStr Gerber.
Context {M : PyMath}.



(** A line that does not start with [c] starts with no string beginning
    with [c]. *)
Lemma startswith_longer (line : string) (c : ascii) (p : string) :
  startswith line (String c EmptyString) = false ->
  startswith line (String c p) = false.
Proof.
  unfold startswith. destruct line as [|b r]; [reflexivity|]. simpl.
  destruct (ascii_dec c b); [|reflexivity]. destruct r; discriminate.
Qed.

(** Selecting an aperture touches neither the decimal places nor the
    position. *)
Lemma select_aperture_keeps line v :
  dec_d (select_aperture line v) = dec_d v
  /\ current_pos (select_aperture line v) = current_pos v.
Proof.
  unfold select_aperture. destruct (search_dcode line); [|auto].
  destruct (decide _); auto.
Qed.




End GerberCoordinates.



(** ** The order of binary64 numbers *)

Section FloatOrderFacts.

Import FloatOrder.
Local Open Scope Z_scope.

Lemma digits2_pos_size (p : positive) : digits2_pos p = Pos.size p.
Proof. induction p; simpl; congruence. Qed.

(** [digits2_pos m] is the number of binary digits of [m]. *)
Lemma digits2_pos_bounds (m : positive) :
  2 ^ (Z.pos (digits2_pos m) - 1) <= Z.pos m < 2 ^ Z.pos (digits2_pos m).
Proof.
  rewrite digits2_pos_size. split.
  - pose proof (Pos.size_le m) as H.
    apply Pos2Z.pos_le_pos in H. rewrite Pos2Z.inj_pow in H.
    rewrite (Pos2Z.inj_xO m) in H.
    replace (Z.pos (Pos.size m)) with (Z.succ (Z.pos (Pos.size m) - 1)) in H
      by lia.
    rewrite Z.pow_succ_r in H by lia. lia.
  - pose proof (Pos.size_gt m) as H.
    apply Pos2Z.pos_lt_pos in H. rewrite Pos2Z.inj_pow in H. exact H.
Qed.

(** What validity says of a finite binary64 number. *)
Lemma valid_finite s m e :
  valid_binary (S754_finite s m e) = true ->
  -1074 <= e <= 971
  /\ Z.pos (digits2_pos m) <= 53
  /\ (-1074 < e -> Z.pos (digits2_pos m) = 53).
Proof.
  unfold valid_binary, bounded, canonical_mantissa, fexp, SpecFloat.emin,
    FloatOps.prec, FloatOps.emax.
  intros H. apply andb_prop in H as [H1 H2].
  apply Z.eqb_eq in H1. apply Z.leb_le in H2. lia.
Qed.

(** Comparing two valid positive numbers is comparing their multiples. *)
Lemma compare_scaled_pos m1 e1 m2 e2 :
  valid_binary (S754_finite false m1 e1) = true ->
  valid_binary (S754_finite false m2 e2) = true ->
  match e1 ?= e2 with
  | Lt => Lt
  | Gt => Gt
  | Eq => Pos.compare_cont Eq m1 m2
  end = (Z.pos m1 * 2 ^ (e1 + 1074) ?= Z.pos m2 * 2 ^ (e2 + 1074)).
Proof.
  intros V1 V2.
  destruct (valid_finite _ _ _ V1) as (He1 & Hd1 & Hn1).
  destruct (valid_finite _ _ _ V2) as (He2 & Hd2 & Hn2).
  pose proof (digits2_pos_bounds m1) as B1.
  pose proof (digits2_pos_bounds m2) as B2.
  assert (forall ma ea mb eb,
            -1074 <= ea -> ea < eb ->
            Z.pos ma < 2 ^ 53 -> 2 ^ 52 <= Z.pos mb ->
            Z.pos ma * 2 ^ (ea + 1074) < Z.pos mb * 2 ^ (eb + 1074)) as Hlt.
  { intros ma ea mb eb Hea Hlt Ha Hb.
    replace (eb + 1074) with ((ea + 1074) + (eb - ea)) by lia.
    rewrite (Z.pow_add_r 2 (ea + 1074) (eb - ea)) by lia.
    assert (0 < 2 ^ (ea + 1074)) by (apply Z.pow_pos_nonneg; lia).
    assert (2 ^ 1 <= 2 ^ (eb - ea)) by (apply Z.pow_le_mono_r; lia).
    change (2 ^ 53) with (2 ^ 52 * 2 ^ 1) in Ha.
    set (a := 2 ^ (ea + 1074)) in *. set (c := 2 ^ (eb - ea)) in *.
    set (A := 2 ^ 52) in *. set (B := 2 ^ 1) in *.
    assert (0 < A) by (subst A; lia). assert (0 < B) by (subst B; lia).
    apply Z.lt_le_trans with (A * B * a);
      [apply Z.mul_lt_mono_pos_r; assumption|].
    replace (Z.pos mb * (a * c)) with (Z.pos mb * c * a) by ring.
    apply Z.mul_le_mono_nonneg_r; [lia|].
    apply Z.mul_le_mono_nonneg; lia. }
  assert (forall m, Z.pos (digits2_pos m) <= 53 -> Z.pos m < 2 ^ 53) as Hup.
  { intros m Hm. pose proof (digits2_pos_bounds m) as [_ B].
    eapply Z.lt_le_trans; [exact B|]. apply Z.pow_le_mono_r; lia. }
  assert (forall m, Z.pos (digits2_pos m) = 53 -> 2 ^ 52 <= Z.pos m) as Hlow.
  { intros m Hm. pose proof (digits2_pos_bounds m) as [B _].
    rewrite Hm in B. exact B. }
  destruct (Z.compare_spec e1 e2) as [E|E|E].
  - subst e2. change (Pos.compare_cont Eq m1 m2) with (Z.pos m1 ?= Z.pos m2).
    apply Zmult_compare_compat_r. apply Z.lt_gt, Z.pow_pos_nonneg; lia.
  - symmetry. apply Z.compare_lt_iff.
    apply Hlt; [lia|exact E|auto|apply Hlow, Hn2; lia].
  - symmetry. apply Z.compare_gt_iff.
    apply Hlt; [lia|exact E|auto|apply Hlow, Hn1; lia].
Qed.

(** Comparing two valid finite numbers is comparing their multiples. *)
Lemma compare_scaled (f1 f2 : spec_float) :
  valid_binary f1 = true -> valid_binary f2 = true ->
  is_finite f1 = true -> is_finite f2 = true ->
  SFcompare f1 f2 = Some (scaled f1 ?= scaled f2).
Proof.
  intros V1 V2 F1 F2.
  assert (forall m e, 0 < Z.pos m * 2 ^ (e + 1074) \/ e < -1074) as Hpos.
  { intros m e. destruct (Z_lt_le_dec e (-1074)); [auto|left].
    apply Z.mul_pos_pos; [lia|apply Z.pow_pos_nonneg; lia]. }
  destruct f1 as [s1| | |s1 m1 e1], f2 as [s2| | |s2 m2 e2];
    try discriminate; cbn [SFcompare scaled].
  - reflexivity.
  - destruct (valid_finite _ _ _ V2) as (He & _).
    destruct (Hpos m2 e2) as [H|H]; [|lia].
    f_equal. destruct s2; symmetry;
      [apply Z.compare_gt_iff|apply Z.compare_lt_iff]; lia.
  - destruct (valid_finite _ _ _ V1) as (He & _).
    destruct (Hpos m1 e1) as [H|H]; [|lia].
    f_equal. destruct s1; symmetry;
      [apply Z.compare_lt_iff|apply Z.compare_gt_iff]; lia.
  - destruct (valid_finite _ _ _ V1) as (He1 & _).
    destruct (valid_finite _ _ _ V2) as (He2 & _).
    destruct (Hpos m1 e1) as [H1|H1]; [|lia].
    destruct (Hpos m2 e2) as [H2|H2]; [|lia].
    f_equal. destruct s1, s2.
    + rewrite !Z.mul_opp_l, Z.compare_opp.
      rewrite <- (compare_scaled_pos m2 e2 m1 e1 V2 V1).
      rewrite (Z.compare_antisym e1 e2).
      destruct (e1 ?= e2); simpl; try reflexivity.
      change (Pos.compare_cont Eq m2 m1) with (Pos.compare m2 m1).
      change (Pos.compare_cont Eq m1 m2) with (Pos.compare m1 m2).
      rewrite (Pos.compare_antisym m1 m2). reflexivity.
    + symmetry. apply Z.compare_lt_iff. lia.
    + symmetry. apply Z.compare_gt_iff. lia.
    + apply (compare_scaled_pos m1 e1 m2 e2 V1 V2).
Qed.

End FloatOrderFacts.

(** ** Rounding a bounded number *)

Section Rounding.

Import FloatOrder.
Local Open Scope Z_scope.

(** One shift to the right. *)
Lemma shr_1_shifted M k mrs :
  0 <= M -> 0 <= k ->
  shifted M k mrs -> shifted M (k + 1) (shr_1 mrs).
Proof.
  intros HM Hk [Hm Hfl]. unfold shifted.
  assert (0 < 2 ^ k) as HP by (apply Z.pow_pos_nonneg; lia).
  rewrite Z.pow_add_r, Z.pow_1_r by lia.
  rewrite <- Zdiv_Zdiv by lia.
  rewrite Z.rem_mul_r by lia.
  pose proof (Z.mod_pos_bound M (2 ^ k) HP) as Hmod.
  assert (0 <= M / 2 ^ k) as Hq by (apply Z.div_pos; lia).
  rewrite <- Hm. rewrite <- Hm in Hq.
  set (P := 2 ^ k) in *. set (R := M mod P) in *.
  destruct mrs as [m r s]. simpl in *.
  destruct m as [|[p|p|]|p]; cbn [shr_1 shr_m shr_r shr_s orb]; try lia.
  - split; [reflexivity|]. intros H. change (0 mod 2) with 0 in H.
    destruct Hfl as [-> ->]; [lia|]. auto.
  - split.
    + rewrite Pos2Z.inj_xI. apply (Z.div_unique _ 2 _ 1); lia.
    + intros H. exfalso.
      replace (Z.pos p~1 mod 2) with 1 in H
        by (rewrite Pos2Z.inj_xI;
            apply (Z.mod_unique _ 2 (Z.pos p) 1); lia).
      lia.
  - split.
    + rewrite Pos2Z.inj_xO. apply (Z.div_unique _ 2 _ 0); lia.
    + intros H.
      replace (Z.pos p~0 mod 2) with 0 in H
        by (rewrite Pos2Z.inj_xO;
            apply (Z.mod_unique _ 2 (Z.pos p) 0); lia).
      destruct Hfl as [-> ->]; [lia|]. auto.
  - split; [reflexivity|]. intros H. exfalso.
    change (1 mod 2) with 1 in H. lia.
Qed.

(** Several shifts. *)
Lemma iter_shr_1_shifted M (p : positive) : forall k mrs,
  0 <= M -> 0 <= k ->
  shifted M k mrs -> shifted M (k + Z.pos p) (SpecFloat.iter_pos shr_1 p mrs).
Proof.
  induction p as [p IH|p IH|]; intros k mrs HM Hk H; simpl.
  - replace (k + Z.pos p~1) with (k + 1 + Z.pos p + Z.pos p) by lia.
    apply IH; [lia|lia|]. apply IH; [lia|lia|].
    apply shr_1_shifted; assumption.
  - replace (k + Z.pos p~0) with (k + Z.pos p + Z.pos p) by lia.
    apply IH; [lia|lia|]. apply IH; assumption.
  - apply shr_1_shifted; assumption.
Qed.

(** The shift to the exponent that the format asks for. *)
Lemma shr_fexp_exact M e mrs' e' :
  0 <= M ->
  shr_fexp prec emax M e loc_Exact = (mrs', e') ->
  exists n,
    0 <= n /\ e' = e + n
    /\ e' = Z.max e (fexp prec emax (Zdigits2 M + e))
    /\ shifted M n mrs'.
Proof.
  intros HM. unfold shr_fexp, shr. simpl shr_record_of_loc.
  assert (shifted M 0 (Build_shr_record M false false)) as H0.
  { split; simpl; [rewrite Z.div_1_r; reflexivity|auto]. }
  destruct (fexp prec emax (Zdigits2 M + e) - e) as [|p|p] eqn:En;
    intros H; inversion H; subst; clear H.
  - exists 0. split; [lia|split; [lia|split; [lia|exact H0]]].
  - exists (Z.pos p). split; [lia|split; [lia|split; [lia|]]].
    exact (iter_shr_1_shifted M p 0 _ HM ltac:(lia) H0).
  - exists 0. split; [lia|split; [lia|split; [lia|exact H0]]].
Qed.

(** Rounding to nearest goes up by one at most, and not at all when nothing
    was shifted out. *)
Lemma round_nearest_even_bounds mrs :
  let m := round_nearest_even (shr_m mrs) (loc_of_shr_record mrs) in
  shr_m mrs <= m <= shr_m mrs + 1
  /\ (shr_r mrs = false /\ shr_s mrs = false -> m = shr_m mrs).
Proof.
  destruct mrs as [m [] []]; simpl; try destruct (Z.even m); split;
    try lia; intros [? ?]; try discriminate; reflexivity.
Qed.

(** A quotient below a bound that is reached only exactly. *)
Lemma div_bound M K Q :
  0 <= M -> 0 < Q -> M <= K * Q ->
  M / Q <= K /\ (M / Q = K -> M mod Q = 0).
Proof.
  intros HM HQ H. pose proof (Z.div_mod M Q ltac:(lia)) as E.
  pose proof (Z.mod_pos_bound M Q HQ) as B.
  split; [|intros E'; rewrite E' in E]; nia.
Qed.

(** The digits of a number bounded by a full turn. *)
Lemma digits_full_turn (m : positive) e :
  -1074 <= e ->
  Z.pos m * 2 ^ (e + 1074) <= full_turn ->
  Z.pos (digits2_pos m) + e <= 9.
Proof.
  intros He H. pose proof (digits2_pos_bounds m) as [B _].
  assert (0 < Z.pos (digits2_pos m)) as Hd by lia.
  assert (2 ^ (Z.pos (digits2_pos m) - 1 + (e + 1074)) < 2 ^ 1083) as Hlt.
  { rewrite Z.pow_add_r by lia.
    apply Z.le_lt_trans with (Z.pos m * 2 ^ (e + 1074)).
    - apply Z.mul_le_mono_nonneg_r; [apply Z.pow_nonneg; lia|exact B].
    - eapply Z.le_lt_trans; [exact H|]. unfold full_turn.
      change (2 ^ 1083) with (64 * 2 ^ 1077).
      apply Z.mul_lt_mono_pos_r; [apply Z.pow_pos_nonneg; lia|lia]. }
  apply Z.pow_lt_mono_r_iff in Hlt; lia.
Qed.

End Rounding.

Section RoundingBound.

Import FloatOrder.
Local Open Scope Z_scope.

(** The arithmetic of rounding a number that a full turn bounds: the
    rounded number is bounded by it as well, and far from overflow. *)
Lemma round_value_bound (M e n n2 m2 m : Z) :
  0 < M -> -1074 <= e -> 0 <= n -> 0 <= n2 -> e + n <= -44 ->
  M * 2 ^ (e + 1074) <= full_turn ->
  M / 2 ^ n <= m2 <= M / 2 ^ n + 1 ->
  (M mod 2 ^ n = 0 -> m2 = M / 2 ^ n) ->
  0 < m -> m = m2 / 2 ^ n2 ->
  m * 2 ^ (e + n + n2 + 1074) <= full_turn /\ e + n + n2 <= 971.
Proof.
  intros HM He Hn Hn2 Hexp HV Hm2 Hexact Hm Hdiv.
  set (P := 2 ^ (e + 1074)) in *. set (Q := 2 ^ n) in *.
  set (R := 2 ^ n2) in *. set (K := 45 * 2 ^ (3 - (e + n))).
  assert (0 < P) as HP by (apply Z.pow_pos_nonneg; lia).
  assert (0 < Q) as HQ by (apply Z.pow_pos_nonneg; lia).
  assert (0 < R) as HR by (apply Z.pow_pos_nonneg; lia).
  assert (full_turn = K * Q * P) as HC.
  { unfold full_turn, K, Q, P. rewrite <- !Z.mul_assoc. f_equal.
    rewrite <- !Z.pow_add_r by lia. f_equal. lia. }
  assert (M <= K * Q) as HMK.
  { apply (Z.mul_le_mono_pos_r _ _ P HP). lia. }
  destruct (div_bound M K Q ltac:(lia) HQ HMK) as [Hq Hqx].
  assert (m2 <= K) as Hm2K.
  { destruct (Z.eq_dec (M / Q) K) as [E|E]; [|lia].
    rewrite (Hexact (Hqx E)). lia. }
  assert (m * R <= m2) as HmR.
  { rewrite Hdiv, Z.mul_comm. apply Z.mul_div_le. exact HR. }
  assert (2 ^ (e + n + n2 + 1074) = R * Q * P) as Hpow.
  { unfold R, Q, P. rewrite <- !Z.pow_add_r by lia. f_equal. lia. }
  assert (m * (R * Q * P) <= full_turn) as Hval.
  { rewrite HC.
    replace (m * (R * Q * P)) with (m * R * (Q * P)) by ring.
    replace (K * Q * P) with (K * (Q * P)) by ring.
    apply Z.mul_le_mono_nonneg_r; [|lia].
    apply Z.lt_le_incl, Z.mul_pos_pos; assumption. }
  split; [rewrite Hpow; exact Hval|].
  assert (2 ^ (e + n + n2 + 1074) < 2 ^ 1083) as Hlt.
  { rewrite Hpow. apply Z.le_lt_trans with (m * (R * Q * P)).
    - rewrite <- (Z.mul_1_l (R * Q * P)) at 1.
      apply Z.mul_le_mono_nonneg_r; [|lia].
      apply Z.lt_le_incl, Z.mul_pos_pos; [apply Z.mul_pos_pos|]; assumption.
    - eapply Z.le_lt_trans; [exact Hval|]. unfold full_turn.
      change (2 ^ 1083) with (64 * 2 ^ 1077).
      apply Z.mul_lt_mono_pos_r; [apply Z.pow_pos_nonneg; lia|lia]. }
  apply Z.pow_lt_mono_r_iff in Hlt; lia.
Qed.

Lemma full_turn_pos : 0 < full_turn.
Proof. unfold full_turn. apply Z.mul_pos_pos; [lia|apply Z.pow_pos_nonneg; lia]. Qed.

(** Rounding a number, given at or below the exponent of its format, that a
    full turn bounds. *)
Lemma binary_round_aux_bound (s : bool) (mz : positive) (e : Z) :
  -1074 <= e ->
  e <= fexp prec emax (Z.pos (digits2_pos mz) + e) ->
  Z.pos mz * 2 ^ (e + 1074) <= full_turn ->
  let r := binary_round_aux prec emax s (Z.pos mz) e loc_Exact in
  is_finite r = true
  /\ Z.abs (scaled r) <= full_turn
  /\ (if s then scaled r <= 0 else 0 <= scaled r).
Proof.
  intros He Hfe HV r. subst r. unfold binary_round_aux.
  pose proof full_turn_pos as HC.
  destruct (shr_fexp prec emax (Z.pos mz) e loc_Exact) as [mrs' e'] eqn:E1.
  destruct (shr_fexp_exact (Z.pos mz) e mrs' e' ltac:(lia) E1)
    as (n & Hn & He' & Hmax & [Hm' Hfl']).
  pose proof (round_nearest_even_bounds mrs') as [Hr Hrx]. cbv zeta in Hr, Hrx.
  set (m2 := round_nearest_even (shr_m mrs') (loc_of_shr_record mrs')) in *.
  assert (0 < 2 ^ n) as HQ by (apply Z.pow_pos_nonneg; lia).
  assert (0 <= shr_m mrs') as Hnn by (rewrite Hm'; apply Z.div_pos; lia).
  destruct (shr_fexp prec emax m2 e' loc_Exact) as [mrs'' e''] eqn:E2.
  destruct (shr_fexp_exact m2 e' mrs'' e'' ltac:(lia) E2)
    as (n2 & Hn2 & He'' & _ & [Hm'' _]).
  assert (0 < 2 ^ n2) as HR by (apply Z.pow_pos_nonneg; lia).
  pose proof (digits_full_turn mz e He HV) as Hdig.
  assert (e + n <= -44) as Hexp.
  { cbn [Zdigits2] in Hmax. revert Hmax Hfe.
    unfold fexp, SpecFloat.emin, prec, emax. lia. }
  rewrite Hm' in Hr.
  assert (M_exact : Z.pos mz mod 2 ^ n = 0 -> m2 = Z.pos mz / 2 ^ n).
  { intros H. rewrite <- Hm'. apply Hrx, Hfl', H. }
  destruct (shr_m mrs'') as [|m|m] eqn:Em.
  - cbn [is_finite scaled]. repeat split; [lia|destruct s; lia].
  - destruct (round_value_bound (Z.pos mz) e n n2 m2 (Z.pos m)
                ltac:(lia) He Hn Hn2 Hexp HV Hr M_exact ltac:(lia)
                ltac:(congruence)) as [Hval Hle].
    subst e'' e'. replace (e + n + n2 + 1074) with (e + n + n2 + 1074) in Hval
      by lia.
    assert ((e + n + n2 <=? emax - prec) = true) as ->
      by (apply Z.leb_le; unfold emax, prec; lia).
    cbn [is_finite scaled]. split; [reflexivity|].
    assert (0 < 2 ^ (e + n + n2 + 1074)) as Hp
      by (apply Z.pow_pos_nonneg; lia).
    destruct s; split; nia.
  - exfalso. assert (0 <= m2 / 2 ^ n2) by (apply Z.div_pos; lia). lia.
Qed.

(** Shifting a mantissa to the left. *)
Lemma iter_xO_value (m d : positive) :
  Z.pos (Pos.iter xO m d) = Z.pos m * 2 ^ Z.pos d
  /\ Z.pos (digits2_pos (Pos.iter xO m d)) = Z.pos (digits2_pos m) + Z.pos d.
Proof.
  apply (Pos.iter_ind positive xO m
           (fun p a => Z.pos a = Z.pos m * 2 ^ Z.pos p
                       /\ Z.pos (digits2_pos a)
                          = Z.pos (digits2_pos m) + Z.pos p)).
  - split; [rewrite Pos2Z.inj_xO; lia|]. simpl. lia.
  - intros p a [Ha Hd]. split.
    + rewrite Pos2Z.inj_xO, Ha, Pos2Z.inj_succ, Z.pow_succ_r by lia. ring.
    + cbn [digits2_pos]. rewrite !Pos2Z.inj_succ. lia.
Qed.

(** Rounding a number that a full turn bounds. *)
Lemma binary_round_bound (s : bool) (mx : positive) (ex : Z) :
  -1074 <= ex ->
  Z.pos mx * 2 ^ (ex + 1074) <= full_turn ->
  let r := binary_round prec emax s mx ex in
  is_finite r = true
  /\ Z.abs (scaled r) <= full_turn
  /\ (if s then scaled r <= 0 else 0 <= scaled r).
Proof.
  intros He HV r. subst r. unfold binary_round, shl_align.
  set (t := fexp prec emax (Z.pos (digits2_pos mx) + ex)).
  assert (-1074 <= t) as Ht
    by (subst t; unfold fexp, SpecFloat.emin, prec, emax; lia).
  destruct (t - ex) as [|d|d] eqn:Ed.
  - apply binary_round_aux_bound; [exact He|fold t; lia|exact HV].
  - apply binary_round_aux_bound; [exact He|fold t; lia|exact HV].
  - destruct (iter_xO_value mx d) as [Hv Hd].
    apply binary_round_aux_bound; [exact Ht| |].
    + rewrite Hd. replace (Z.pos (digits2_pos mx) + Z.pos d + t)
        with (Z.pos (digits2_pos mx) + ex) by lia.
      fold t. lia.
    + rewrite Hv. replace (ex + 1074) with (Z.pos d + (t + 1074)) in HV by lia.
      rewrite (Z.pow_add_r 2 (Z.pos d) (t + 1074)) in HV by lia. lia.
Qed.

(** Normalising an integer multiple that a full turn bounds. *)
Lemma binary_normalize_bound (M ez : Z) :
  -1074 <= ez ->
  Z.abs M * 2 ^ (ez + 1074) <= full_turn ->
  let r := binary_normalize prec emax M ez false in
  is_finite r = true
  /\ Z.abs (scaled r) <= full_turn
  /\ (0 <= M -> 0 <= scaled r)
  /\ (M <= 0 -> scaled r <= 0).
Proof.
  intros He HV r. subst r. pose proof full_turn_pos as HC.
  destruct M as [|m|m]; cbn [binary_normalize].
  - cbn [is_finite scaled]. repeat split; try lia.
  - destruct (binary_round_bound false m ez He HV) as (F & B & S).
    cbv iota in S. repeat split; try assumption; lia.
  - destruct (binary_round_bound true m ez He HV) as (F & B & S).
    cbv iota in S. repeat split; try assumption; lia.
Qed.

End RoundingBound.

Section FloatSums.

Import FloatOrder.
Local Open Scope Z_scope.

(** The mantissa brought to the smaller exponent. *)
Lemma shl_align_value (mx : positive) (ex ez : Z) :
  -1074 <= ez -> ez <= ex ->
  Z.pos (fst (shl_align mx ex ez)) * 2 ^ (ez + 1074)
  = Z.pos mx * 2 ^ (ex + 1074).
Proof.
  intros He Hle. unfold shl_align.
  destruct (ez - ex) as [|d|d] eqn:Ed; cbn [fst].
  - f_equal. f_equal. lia.
  - lia.
  - destruct (iter_xO_value mx d) as [-> _].
    replace (ex + 1074) with (Z.pos d + (ez + 1074)) by lia.
    rewrite (Z.pow_add_r 2 (Z.pos d) (ez + 1074)) by lia. ring.
Qed.

Lemma scaled_finite s m e :
  scaled (S754_finite s m e) = cond_Zopp s (Z.pos m) * 2 ^ (e + 1074).
Proof. destruct s; reflexivity. Qed.

(** The two mantissas of a sum or difference, at the common exponent. *)
Lemma aligned_scaled s m e ez :
  -1074 <= ez -> ez <= e ->
  cond_Zopp s (Z.pos (fst (shl_align m e ez))) * 2 ^ (ez + 1074)
  = scaled (S754_finite s m e).
Proof.
  intros He Hle. rewrite scaled_finite.
  pose proof (shl_align_value m e ez He Hle) as H.
  destruct s; cbn [cond_Zopp]; rewrite ?Z.mul_opp_l; lia.
Qed.

(** A difference that a full turn bounds is finite, bounded by a full
    turn, and has the sign of the exact difference. *)
Lemma SFsub_bound (x y : spec_float) :
  valid_binary x = true -> valid_binary y = true ->
  is_finite x = true -> is_finite y = true ->
  Z.abs (scaled x - scaled y) <= full_turn ->
  let r := SFsub prec emax x y in
  is_finite r = true
  /\ Z.abs (scaled r) <= full_turn
  /\ (scaled y <= scaled x -> 0 <= scaled r)
  /\ (scaled x <= scaled y -> scaled r <= 0).
Proof.
  intros Vx Vy Fx Fy HB r. subst r. pose proof full_turn_pos as HC.
  destruct x as [sx| | |sx mx ex], y as [sy| | |sy my ey]; try discriminate.
  - assert (scaled (SFsub prec emax (S754_zero sx) (S754_zero sy)) = 0
            /\ is_finite (SFsub prec emax (S754_zero sx) (S754_zero sy))
               = true) as [E F]
      by (destruct sx, sy; split; reflexivity).
    rewrite E, F. repeat split; lia.
  - cbn [SFsub is_finite]. rewrite !scaled_finite in *. cbn [scaled] in *.
    set (P := 2 ^ (ey + 1074)) in *.
    destruct sy; cbn [negb cond_Zopp] in *; rewrite ?Z.mul_opp_l in *;
      repeat split; lia.
  - cbn [SFsub is_finite]. cbn [scaled] in HB |- *.
    repeat split; lia.
  - cbn [SFsub].
    destruct (valid_finite _ _ _ Vx) as (Hex & _).
    destruct (valid_finite _ _ _ Vy) as (Hey & _).
    set (ez := Z.min ex ey).
    pose proof (aligned_scaled sx mx ex ez ltac:(subst ez; lia)
                  ltac:(subst ez; lia)) as Ax.
    pose proof (aligned_scaled sy my ey ez ltac:(subst ez; lia)
                  ltac:(subst ez; lia)) as Ay.
    set (X := cond_Zopp sx (Z.pos (fst (shl_align mx ex ez)))) in *.
    set (Y := cond_Zopp sy (Z.pos (fst (shl_align my ey ez)))) in *.
    assert (0 < 2 ^ (ez + 1074)) as HP
      by (apply Z.pow_pos_nonneg; subst ez; lia).
    set (P := 2 ^ (ez + 1074)) in *.
    assert ((X - Y) * P = scaled (S754_finite sx mx ex)
                          - scaled (S754_finite sy my ey)) as HM
      by (rewrite Z.mul_sub_distr_r; lia).
    destruct (binary_normalize_bound (X - Y) ez ltac:(subst ez; lia))
      as (F & B & Sp & Sn).
    { fold P. rewrite <- (Z.abs_eq P) at 1 by lia.
      rewrite <- Z.abs_mul, HM. exact HB. }
    repeat split; try assumption.
    + intros H. apply Sp. nia.
    + intros H. apply Sn. nia.
Qed.

(** The same for a sum. *)
Lemma SFadd_bound (x y : spec_float) :
  valid_binary x = true -> valid_binary y = true ->
  is_finite x = true -> is_finite y = true ->
  Z.abs (scaled x + scaled y) <= full_turn ->
  let r := SFadd prec emax x y in
  is_finite r = true
  /\ Z.abs (scaled r) <= full_turn
  /\ (0 <= scaled x + scaled y -> 0 <= scaled r)
  /\ (scaled x + scaled y <= 0 -> scaled r <= 0).
Proof.
  intros Vx Vy Fx Fy HB r. subst r. pose proof full_turn_pos as HC.
  destruct x as [sx| | |sx mx ex], y as [sy| | |sy my ey]; try discriminate.
  - assert (scaled (SFadd prec emax (S754_zero sx) (S754_zero sy)) = 0
            /\ is_finite (SFadd prec emax (S754_zero sx) (S754_zero sy))
               = true) as [E F]
      by (destruct sx, sy; split; reflexivity).
    rewrite E, F. repeat split; lia.
  - cbn [SFadd is_finite]. cbn [scaled] in HB |- *.
    repeat split; lia.
  - cbn [SFadd is_finite]. cbn [scaled] in HB |- *.
    repeat split; lia.
  - cbn [SFadd].
    destruct (valid_finite _ _ _ Vx) as (Hex & _).
    destruct (valid_finite _ _ _ Vy) as (Hey & _).
    set (ez := Z.min ex ey).
    pose proof (aligned_scaled sx mx ex ez ltac:(subst ez; lia)
                  ltac:(subst ez; lia)) as Ax.
    pose proof (aligned_scaled sy my ey ez ltac:(subst ez; lia)
                  ltac:(subst ez; lia)) as Ay.
    set (X := cond_Zopp sx (Z.pos (fst (shl_align mx ex ez)))) in *.
    set (Y := cond_Zopp sy (Z.pos (fst (shl_align my ey ez)))) in *.
    assert (0 < 2 ^ (ez + 1074)) as HP
      by (apply Z.pow_pos_nonneg; subst ez; lia).
    set (P := 2 ^ (ez + 1074)) in *.
    assert ((X + Y) * P = scaled (S754_finite sx mx ex)
                          + scaled (S754_finite sy my ey)) as HM
      by (rewrite Z.mul_add_distr_r; lia).
    destruct (binary_normalize_bound (X + Y) ez ltac:(subst ez; lia))
      as (F & B & Sp & Sn).
    { fold P. rewrite <- (Z.abs_eq P) at 1 by lia.
      rewrite <- Z.abs_mul, HM. exact HB. }
    repeat split; try assumption.
    + intros H. apply Sp. nia.
    + intros H. apply Sn. nia.
Qed.

End FloatSums.

(** ** The sweep of an arc *)

Section ArcSweep.

Local Open Scope float_scope.

(** Comparing the other way round gives the opposite answer. *)
Lemma SFcompare_antisym (s1 s2 : spec_float) :
  SFcompare s2 s1 = CompOpp <$> SFcompare s1 s2.
Proof.
  destruct s1 as [b1|b1| |b1 m1 e1], s2 as [b2|b2| |b2 m2 e2]; simpl;
    try (destruct b1); try (destruct b2); try reflexivity;
    rewrite (Z.compare_antisym e1 e2); destruct (e1 ?= e2)%Z; simpl;
    try reflexivity;
    change (Pos.compare_cont Eq m2 m1) with (Pos.compare m2 m1);
    change (Pos.compare_cont Eq m1 m2) with (Pos.compare m1 m2);
    rewrite (Pos.compare_antisym m1 m2); destruct (m1 ?= m2)%positive;
    reflexivity.
Qed.

(** Only a NaN is not comparable. *)
Lemma SFcompare_None (s1 s2 : spec_float) :
  SFcompare s1 s2 = None -> s1 = S754_nan \/ s2 = S754_nan.
Proof.
  destruct s1 as [b1|b1| |b1 m1 e1], s2 as [b2|b2| |b2 m2 e2]; simpl;
    auto; discriminate.
Qed.

(** A difference with a NaN operand is NaN. *)
Lemma sub_nan (a b : float) :
  Prim2SF a = S754_nan \/ Prim2SF b = S754_nan -> b - a = nan.
Proof.
  intros H. apply Prim2SF_inj. rewrite sub_spec.
  destruct H as [-> | ->]; [destruct (Prim2SF b)|]; reflexivity.
Qed.

(** [a < b] fails exactly when [b <= a] holds, unless one of them is
    NaN. *)
Lemma ltb_leb_cases (a b : float) :
  ((a <? b) = true /\ (b <=? a) = false)
  \/ ((a <? b) = false /\ (b <=? a) = true)
  \/ ((a <? b) = false /\ (b <=? a) = false
      /\ (Prim2SF a = S754_nan \/ Prim2SF b = S754_nan)).
Proof.
  rewrite ltb_spec, leb_spec. unfold SFltb, SFleb.
  rewrite (SFcompare_antisym (Prim2SF a) (Prim2SF b)).
  destruct (SFcompare (Prim2SF a) (Prim2SF b)) as [[]|] eqn:E; simpl; auto.
  right; right. repeat split. apply SFcompare_None, E.
Qed.

(** Clockwise, the sweep is [angle2 - angle1] when [angle2 <= angle1] and
    [angle2 - angle1 - 360] otherwise; counter-clockwise, it is
    [angle2 - angle1] when [angle2 >= angle1] and [angle2 - angle1 + 360]
    otherwise. *)
Lemma arc_sweep_cases (angle1 angle2 : float) :
  Gerber.arc_sweep true angle1 angle2 =
    (if angle2 <=? angle1 then angle2 - angle1 else angle2 - angle1 - 360)
  /\ Gerber.arc_sweep false angle1 angle2 =
    (if angle1 <=? angle2 then angle2 - angle1 else angle2 - angle1 + 360).
Proof.
  unfold Gerber.arc_sweep. split.
  - destruct (ltb_leb_cases angle1 angle2)
      as [[-> ->] | [[-> ->] | (-> & -> & E)]]; try reflexivity.
    rewrite (sub_nan angle1 angle2 E). reflexivity.
  - destruct (ltb_leb_cases angle2 angle1)
      as [[-> ->] | [[-> ->] | (-> & -> & E)]]; try reflexivity.
    rewrite (sub_nan angle1 angle2) by tauto. reflexivity.
Qed.

(** The path [_create_arc_path] returns carries that sweep, negated, from
    the two angles about the centre. *)
Lemma create_arc_path_sweep `{PyMath} (start end_ center : QPointF)
    (clockwise : bool) (path : QPainterPath) :
  Gerber._create_arc_path start end_ center clockwise = Return (Some path) ->
  let angle1 :=
    float_mod (degrees (atan2 (y start - y center) (x start - x center))) 360 in
  let angle2 :=
    float_mod (degrees (atan2 (y end_ - y center) (x end_ - x center))) 360 in
  exists rect,
    path = [MoveTo start;
            ArcTo rect (- angle1) (- Gerber.arc_sweep clockwise angle1 angle2)].
Proof.
  unfold Gerber._create_arc_path.
  destruct (PyFloat.pow2 _) as [sx|]; [|discriminate].
  destruct (PyFloat.pow2 _) as [sy|]; [|discriminate].
  destruct (_ =? 0); [discriminate|].
  intros E; inversion E; subst. eexists. reflexivity.
Qed.

(** *** The sign of the sweep *)

Import FloatOrder.

Lemma Prim2SF_full_turn : Prim2SF 360 = S754_finite false 6333186975989760 (-44).
Proof. reflexivity. Qed.

Lemma scaled_full_turn : scaled (Prim2SF 360) = full_turn.
Proof. rewrite Prim2SF_full_turn. vm_compute. reflexivity. Qed.

(** The comparisons of finite floats are those of their multiples. *)
Lemma leb_scaled (a b : float) :
  is_finite (Prim2SF a) = true -> is_finite (Prim2SF b) = true ->
  (a <=? b) = true <-> (scaled (Prim2SF a) <= scaled (Prim2SF b))%Z.
Proof.
  intros Fa Fb. rewrite leb_spec. unfold SFleb.
  rewrite (compare_scaled _ _ (Prim2SF_valid a) (Prim2SF_valid b) Fa Fb).
  destruct (Z.compare_spec (scaled (Prim2SF a)) (scaled (Prim2SF b)));
    split; intros; try lia; try reflexivity; discriminate.
Qed.

Lemma ltb_scaled (a b : float) :
  is_finite (Prim2SF a) = true -> is_finite (Prim2SF b) = true ->
  (a <? b) = true <-> (scaled (Prim2SF a) < scaled (Prim2SF b))%Z.
Proof.
  intros Fa Fb. rewrite ltb_spec. unfold SFltb.
  rewrite (compare_scaled _ _ (Prim2SF_valid a) (Prim2SF_valid b) Fa Fb).
  destruct (Z.compare_spec (scaled (Prim2SF a)) (scaled (Prim2SF b)));
    split; intros; try lia; try reflexivity; discriminate.
Qed.

(** An angle between 0 and 360 is finite, and its multiple lies between 0
    and that of 360. *)
Lemma angle_in_turn (a : float) :
  (0 <=? a) = true -> (a <=? 360) = true ->
  is_finite (Prim2SF a) = true
  /\ (0 <= scaled (Prim2SF a) <= full_turn)%Z.
Proof.
  intros H0 H360.
  assert (is_finite (Prim2SF a) = true) as Fa.
  { rewrite leb_spec in H0, H360. rewrite Prim2SF_full_turn in H360.
    change (Prim2SF 0) with (S754_zero false) in H0.
    destruct (Prim2SF a) as [s|[]| |s m e]; try reflexivity;
      discriminate. }
  split; [exact Fa|].
  apply (leb_scaled 0 a eq_refl Fa) in H0.
  apply (leb_scaled a 360 Fa eq_refl) in H360.
  rewrite scaled_full_turn in H360.
  change (scaled (Prim2SF 0)) with 0%Z in H0. lia.
Qed.

(** The difference of two finite floats, when a full turn bounds it. *)
Lemma sub_in_turn (a b : float) :
  is_finite (Prim2SF a) = true -> is_finite (Prim2SF b) = true ->
  (Z.abs (scaled (Prim2SF a) - scaled (Prim2SF b)) <= full_turn)%Z ->
  is_finite (Prim2SF (a - b)) = true
  /\ (Z.abs (scaled (Prim2SF (a - b))) <= full_turn)%Z
  /\ (scaled (Prim2SF b) <= scaled (Prim2SF a) ->
      0 <= scaled (Prim2SF (a - b)))%Z
  /\ (scaled (Prim2SF a) <= scaled (Prim2SF b) ->
      scaled (Prim2SF (a - b)) <= 0)%Z.
Proof.
  intros Fa Fb HB. rewrite sub_spec.
  exact (SFsub_bound _ _ (Prim2SF_valid a) (Prim2SF_valid b) Fa Fb HB).
Qed.

Lemma add_in_turn (a b : float) :
  is_finite (Prim2SF a) = true -> is_finite (Prim2SF b) = true ->
  (Z.abs (scaled (Prim2SF a) + scaled (Prim2SF b)) <= full_turn)%Z ->
  is_finite (Prim2SF (a + b)) = true
  /\ (Z.abs (scaled (Prim2SF (a + b))) <= full_turn)%Z
  /\ (0 <= scaled (Prim2SF a) + scaled (Prim2SF b) ->
      0 <= scaled (Prim2SF (a + b)))%Z
  /\ (scaled (Prim2SF a) + scaled (Prim2SF b) <= 0 ->
      scaled (Prim2SF (a + b)) <= 0)%Z.
Proof.
  intros Fa Fb HB. rewrite add_spec.
  exact (SFadd_bound _ _ (Prim2SF_valid a) (Prim2SF_valid b) Fa Fb HB).
Qed.

(** For angles between 0 and 360 the sweep is never positive clockwise and
    never negative counter-clockwise. *)
Lemma arc_sweep_sign (clockwise : bool) (angle1 angle2 : float) :
  (0 <=? angle1) = true -> (angle1 <=? 360) = true ->
  (0 <=? angle2) = true -> (angle2 <=? 360) = true ->
  (if clockwise then Gerber.arc_sweep true angle1 angle2 <=? 0
   else 0 <=? Gerber.arc_sweep false angle1 angle2) = true.
Proof.
  intros L1 U1 L2 U2.
  destruct (angle_in_turn _ L1 U1) as (F1 & B1).
  destruct (angle_in_turn _ L2 U2) as (F2 & B2).
  pose proof scaled_full_turn as HT.
  assert (is_finite (Prim2SF 360) = true) as FT by reflexivity.
  assert (is_finite (Prim2SF 0) = true) as FZ by reflexivity.
  destruct (sub_in_turn angle2 angle1 F2 F1 ltac:(lia)) as (Fd & Bd & Sp & Sn).
  unfold Gerber.arc_sweep. destruct clockwise.
  - destruct (angle1 <? angle2) eqn:E.
    + apply (ltb_scaled _ _ F1 F2) in E.
      destruct (sub_in_turn (angle2 - angle1) 360 Fd FT ltac:(lia))
        as (Fs & _ & _ & Ss).
      apply (leb_scaled _ 0 Fs FZ). apply Ss. lia.
    + assert (~ (scaled (Prim2SF angle1) < scaled (Prim2SF angle2))%Z) as N
        by (intros H; apply (ltb_scaled _ _ F1 F2) in H; congruence).
      apply (leb_scaled _ 0 Fd FZ). apply Sn. lia.
  - destruct (angle2 <? angle1) eqn:E.
    + apply (ltb_scaled _ _ F2 F1) in E.
      destruct (add_in_turn (angle2 - angle1) 360 Fd FT ltac:(lia))
        as (Fs & _ & Ss & _).
      apply (leb_scaled 0 _ FZ Fs). apply Ss. lia.
    + assert (~ (scaled (Prim2SF angle2) < scaled (Prim2SF angle1))%Z) as N
        by (intros H; apply (ltb_scaled _ _ F2 F1) in H; congruence).
      apply (leb_scaled 0 _ FZ Fd). apply Sp. lia.
Qed.

(** C4: the arc [_create_arc_path] returns starts at the angle [angle1] of
    the start point about the centre and sweeps, both negated for Qt, by
    [sweep], where with [angle2] the angle of the end point: clockwise,
    [sweep] is [angle2 - angle1] when [angle2 <= angle1] and
    [angle2 - angle1 - 360] otherwise; counter-clockwise, it is
    [angle2 - angle1] when [angle2 >= angle1] and [angle2 - angle1 + 360]
    otherwise.  The angles being between 0 and 360, as the remainder leaves
    them, [sweep] is never positive clockwise and never negative
    counter-clockwise: the arc turns in the sense asked for. *)
Theorem arc_sweep_by_direction `{PyMath} (start end_ center : QPointF)
    (clockwise : bool) (path : QPainterPath) :
  let angle1 :=
    float_mod (degrees (atan2 (y start - y center) (x start - x center))) 360 in
  let angle2 :=
    float_mod (degrees (atan2 (y end_ - y center) (x end_ - x center))) 360 in
  Gerber._create_arc_path start end_ center clockwise = Return (Some path) ->
  (0 <=? angle1) = true -> (angle1 <=? 360) = true ->
  (0 <=? angle2) = true -> (angle2 <=? 360) = true ->
  exists rect sweep,
    path = [MoveTo start; ArcTo rect (- angle1) (- sweep)]
    /\ sweep =
       (if clockwise
        then if angle2 <=? angle1 then angle2 - angle1
             else angle2 - angle1 - 360
        else if angle1 <=? angle2 then angle2 - angle1
             else angle2 - angle1 + 360)
    /\ (if clockwise then sweep <=? 0 else 0 <=? sweep) = true.
Proof.
  intros angle1 angle2 Hpath L1 U1 L2 U2.
  destruct (create_arc_path_sweep _ _ _ _ _ Hpath) as [rect ->].
  fold angle1 angle2.
  exists rect, (Gerber.arc_sweep clockwise angle1 angle2).
  split; [reflexivity|].
  destruct (arc_sweep_cases angle1 angle2) as [Hcw Hccw].
  pose proof (arc_sweep_sign clockwise angle1 angle2 L1 U1 L2 U2) as Hs.
  destruct clockwise; split; assumption.
Qed.

End ArcSweep.

(** A quarter circle about the origin from (1, 0) to (0, 1), asked for
    clockwise: the angles are 0 and 90, the sweep is 90 - 0 - 360 = -270,
    three quarters of a turn the clockwise way. *)
Lemma arc_sweep_by_direction_witness :
  exists rect sweep,
    [MoveTo (mkPoint 1 0); ArcTo (mkRect (-1) (-1) 2 2) (-0) 270]
    = [MoveTo (mkPoint 1 0); ArcTo rect (- 0) (- sweep)]
    /\ sweep = (90 - 0 - 360)%float
    /\ (sweep <=? 0)%float = true.
Proof.
  exact (arc_sweep_by_direction (H := Libm.math)
           (mkPoint 1 0) (mkPoint 0 1) (mkPoint 0 0) true
           [MoveTo (mkPoint 1 0); ArcTo (mkRect (-1) (-1) 2 2) (-0) 270]
           eq_refl eq_refl eq_refl eq_refl eq_refl).
Defined.

(** ** What the integer pattern of the drill interpreter finds *)

Section DrillScan.

Import PyStr Drill.
Local Open Scope string_scope.













End DrillScan.

(** ** Six-digit tokens of the drill interpreter *)

Section DrillDecimals.

Import PyStr Drill.

(** An axis without a token keeps what [coords] held. *)
Lemma integer_coords_absent decimals (a : ascii) toks : forall c coords,
  a ∉ toks.*1 ->
  integer_coords decimals c toks = Return coords ->
  coords !! a = c !! a.
Proof.
  induction toks as [|[b s] toks IH]; intros c coords Ha H; simpl in *.
  - inversion H; reflexivity.
  - apply not_elem_of_cons in Ha as [Hab Ha].
    destruct (integer_value decimals s); [|discriminate].
    rewrite (IH _ _ Ha H). apply lookup_insert_ne. congruence.
Qed.







End DrillDecimals.



(** ** A format declaration does not reach six-digit tokens *)

Section DrillFormat.

Import PyStr Drill.

(** A record changes the position and the hits only. *)
Lemma record_hit_keeps coords st :
  drill_decimals (record_hit coords st) = drill_decimals st
  /\ unitfactor (record_hit coords st) = unitfactor st
  /\ incremental_mode (record_hit coords st) = incremental_mode st.
Proof. repeat split. Qed.

(** What a line that is not passed over does, when it returns. *)
Lemma step_returns st line st' :
  skipped (upper (strip line)) = false ->
  step st line = Return st' ->
  exists coords,
    line_coords (drill_decimals st') line = Return coords
    /\ drill_decimals st' =
       default (drill_decimals st) (search_format (upper (strip line)))
    /\ (coords <> ∅ ->
        x (current_pos st') =
          (if incremental_mode st'
           then x (current_pos st) + unitfactor st' * default 0 (coords !! "X"%char)
           else match coords !! "X"%char with
                | Some q => unitfactor st' * q
                | None => x (current_pos st)
                end)%float
        /\ y (current_pos st') =
          (if incremental_mode st'
           then y (current_pos st) + unitfactor st' * default 0 (coords !! "Y"%char)
           else match coords !! "Y"%char with
                | Some q => unitfactor st' * q
                | None => y (current_pos st)
                end)%float).
Proof.
  intros Hskip H. unfold step in H. rewrite Hskip in H.
  destruct (match match_tool _ with Some _ => _ | None => _ end)
    as [tools|] eqn:Et; [|discriminate].
  simpl in H.
  destruct (line_coords _ line) as [coords|] eqn:Ec; [|discriminate].
  simpl in H. exists coords.
  destruct (decide (coords = ∅)) as [->|Hne]; inversion H; subst; clear H;
    simpl; (split; [exact Ec|]); (split; [reflexivity|]); intros Hc;
    [destruct Hc; reflexivity|].
  split; destruct (coords !! _); reflexivity.
Qed.


End DrillFormat.



(** ** Closing and repairing a ring *)

Section Repair.

Import Extract.
Context {S : Shapely}.

(** Whatever polygon [coords_close_and_fix] returns has passed its check:
    valid, not empty, of area above 1e-9. *)
Lemma coords_close_and_fix_checked coords poly :
  (coords_close_and_fix coords).2 = Some poly ->
  is_valid poly = true /\ is_empty poly = false
  /\ (1e-9 <? area poly)%float = true.
Proof.
  unfold coords_close_and_fix. destruct (_ <? 3)%nat; [discriminate|]. simpl.
  destruct (Polygon _) as [p|]; [|discriminate]. simpl.
  destruct (if is_valid p then Some p else buffer0 p) as [p'|];
    [|discriminate]. simpl.
  destruct (is_valid p') eqn:Hv, (is_empty p') eqn:He,
    (1e-9 <? area p')%float eqn:Ha; simpl; intros H; inversion H; subst.
  auto.
Qed.

(** C8: on a closed ring of which [Polygon] makes a valid polygon of area
    above 1e-9, [coords_close_and_fix] appends nothing, repairs nothing and
    returns that polygon; applied again to the ring it left, it returns the
    same. *)
Theorem coords_close_and_fix_idempotent coords poly :
  (3 <= length coords)%nat ->
  is_closed coords = true ->
  Polygon coords = Some poly ->
  is_valid poly = true ->
  is_empty poly = false ->
  (1e-9 <? area poly)%float = true ->
  coords_close_and_fix coords = (coords, Some poly)
  /\ coords_close_and_fix (coords_close_and_fix coords).1
     = coords_close_and_fix coords.
Proof.
  intros Hlen Hclosed Hpoly Hvalid Hempty Harea.
  assert (coords_close_and_fix coords = (coords, Some poly)) as E.
  { unfold coords_close_and_fix.
    destruct (Nat.ltb_spec (length coords) 3) as [?|_]; [lia|].
    unfold is_closed in Hclosed.
    destruct (head coords) as [a|]; [|discriminate].
    destruct (last coords) as [b|]; [|discriminate].
    apply negb_true_iff in Hclosed. rewrite Hclosed, Hpoly. simpl.
    rewrite Hvalid. simpl. rewrite Hvalid, Hempty, Harea. reflexivity. }
  split; [exact E|]. rewrite E. simpl. exact E.
Qed.

End Repair.

(** The unit square, closed: kept as it is. *)
Lemma coords_close_and_fix_idempotent_witness :
  let square := [(0, 0); (1, 0); (1, 1); (0, 1); (0, 0)]%float in
  Extract.coords_close_and_fix (H := Rings.shapely) square
  = (square, Some square)
  /\ Extract.coords_close_and_fix (H := Rings.shapely)
       (Extract.coords_close_and_fix (H := Rings.shapely) square).1
     = Extract.coords_close_and_fix (H := Rings.shapely) square.
Proof.
  exact (coords_close_and_fix_idempotent (S := Rings.shapely)
           [(0, 0); (1, 0); (1, 1); (0, 1); (0, 0)]%float
           [(0, 0); (1, 0); (1, 1); (0, 1); (0, 0)]%float
           ltac:(simpl; lia) eq_refl eq_refl eq_refl eq_refl eq_refl).
Defined.

(** ** Aperture selection read as a draw *)

Section ApertureSelect.

Import PyStr Gerber.
Context {M : PyMath}.

(** What the tests of the loop body find in [D10*] to [D19*]: no
    directive, no comment, a draw, the aperture code, no coordinate. *)
Lemma select_command_read (k : N) :
  (k < 10)%N ->
  let line := Scenario.select_command k in
  strip line = line
  /\ startswith line "%" = false
  /\ startswith line "G0" = false
  /\ startswith line "G3" = false
  /\ (line =? "")%string = false
  /\ detect_mode line = Some draw
  /\ search_dcode line = Some (10 + Z.of_N k)
  /\ findall_coords line = [].
Proof.
  intros Hk.
  assert (k = 0 \/ k = 1 \/ k = 2 \/ k = 3 \/ k = 4 \/ k = 5 \/ k = 6
          \/ k = 7 \/ k = 8 \/ k = 9)%N as Hcases by lia.
  repeat (destruct Hcases as [->|Hcases]); try subst k;
    vm_compute; repeat split; reflexivity.
Qed.

(** A line that does not start with [c d] starts with no string beginning
    with [c d]. *)
Lemma startswith_extend (line : string) (c d : ascii) (p : string) :
  startswith line (String c (String d EmptyString)) = false ->
  startswith line (String c (String d p)) = false.
Proof.
  unfold startswith. destruct line as [|b [|b' r]]; simpl; try reflexivity.
  - destruct (ascii_dec c b); reflexivity.
  - destruct (ascii_dec c b); [|reflexivity].
    destruct (ascii_dec d b'); [|reflexivity]. destruct r; discriminate.
Qed.

(** C9, as amended: outside a region and in linear interpolation, a line
    that is [D10*] to [D19*] and names a defined aperture selects it and
    adds one stroke from the current position to itself. *)
Theorem aperture_select_draws scene_factor v l (k : N) raw a :
  (k < 10)%N ->
  strip raw = Scenario.select_command k ->
  aperture_macros v !! (10 + Z.of_N k) = Some a ->
  polygon_mode l = false ->
  interpolation_mode l = linear ->
  let v' := mkViewer (dec_d v) (aperture_macros v) (current_pos v)
                     (Some (10 + Z.of_N k)) in
  step scene_factor v l raw =
  (v', Return (add_item
                 (Stroke [MoveTo (current_pos v); LineTo (current_pos v)]
                         (_get_aperture_width v' * scene_factor)
                         RoundCap RoundJoin) l)).
Proof.
  intros Hk Hraw Ha Hregion Hlinear v'.
  destruct (select_command_read k Hk)
    as (_ & Hpct & HG0 & HG3 & Hne & Hmode & Hcode & Hcoords).
  unfold step. rewrite Hraw.
  rewrite !(startswith_longer _ "%") by assumption.
  unfold select_interpolation, region_start, region_end.
  rewrite !(startswith_extend _ "G" "0"), !(startswith_extend _ "G" "3")
    by assumption.
  rewrite Hne, Hmode, Hcoords. simpl.
  unfold select_aperture. rewrite Hcode.
  destruct (decide _) as [_|Hno]; [|destruct Hno; rewrite Ha; eauto].
  fold v'. unfold exec_draw. rewrite Hregion, Hlinear.
  unfold resolve, coord_vals. simpl. rewrite !lookup_empty. simpl.
  destruct v as [d macros [px py] cur]. reflexivity.
Qed.

End ApertureSelect.

(** [D10*] on the viewer that has read [%ADD10C,0.5*%]. *)
Lemma aperture_select_draws_witness :
  let v := Gerber.mkViewer 5 {[ 10 := ("C"%char, [0.5%float]) ]}
             (mkPoint 0 0) None in
  let l := Gerber.mkLocals [] false None Gerber.linear 1 in
  Gerber.step (H := Libm.math) 1 v l "D10*" =
  (Gerber.mkViewer 5 {[ 10 := ("C"%char, [0.5%float]) ]} (mkPoint 0 0) (Some 10),
   Return (Gerber.mkLocals
             [Stroke [MoveTo (mkPoint 0 0); LineTo (mkPoint 0 0)] 0.25
                     RoundCap RoundJoin]
             false None Gerber.linear 1)).
Proof.
  exact (aperture_select_draws (M := Libm.math) 1
           (Gerber.mkViewer 5 {[ 10 := ("C"%char, [0.5%float]) ]}
              (mkPoint 0 0) None)
           (Gerber.mkLocals [] false None Gerber.linear 1) 0 "D10*"
           ("C"%char, [0.5%float])
           ltac:(reflexivity) eq_refl eq_refl eq_refl eq_refl).
Defined.

(** C9, as stated, fails: with clockwise arcs selected, [D10*] selects the
    defined aperture 10 and nothing is added, the arc of radius zero being
    passed over. *)
Lemma aperture_select_in_arc_mode_draws_nothing :
  Gerber.parse_gerber (H := Libm.math) Gerber.init
    (Readable Scenario.select_in_arc_mode) 1
  = (Gerber.mkViewer 5 {[ 10 := ("C"%char, [0.5%float]) ]} (mkPoint 0 0)
       (Some 10),
     Return []).
Proof. vm_compute. reflexivity. Qed.

(** * Further properties *)

(** ** The Gerber interpreter *)

Section GerberLines.

Import PyStr Gerber.
Context {M : PyMath}.

(** Two different strings of one length do not both start a line. *)
Lemma startswith_other (line p q : string) :
  String.length p = String.length q -> p <> q ->
  startswith line p = true -> startswith line q = false.
Proof.
  unfold startswith. intros Hlen Hne Hp.
  destruct (String.prefix q line) eqn:Hq; [|reflexivity].
  apply String.prefix_correct in Hp, Hq. rewrite Hlen in Hp. congruence.
Qed.

(** Strings with different first characters do not both start a line. *)
Lemma startswith_first (line : string) (a b : ascii) (p q : string) :
  a <> b ->
  startswith line (String a p) = true -> startswith line (String b q) = false.
Proof.
  unfold startswith. intros Hne. destruct line as [|c r]; [discriminate|].
  cbn [String.prefix]. destruct (ascii_dec a c), (ascii_dec b c);
    congruence.
Qed.

(** A line the interpreter passes over changes nothing. *)
Lemma step_ignored scene_factor v l raw :
  Kinds.gerber_ignored raw = true ->
  step scene_factor v l raw = (v, Return l).
Proof.
  unfold Kinds.gerber_ignored, step. cbv zeta.
  set (line := strip raw). intros H.
  apply andb_prop in H as [H Hadd]. apply andb_prop in H as [H Hmo].
  apply andb_prop in H as [H Hfs].
  apply negb_true_iff in Hadd, Hmo, Hfs. rewrite Hfs, Hmo, Hadd.
  assert (startswith line "G01" = false /\ startswith line "G02" = false
          /\ startswith line "G03" = false /\ startswith line "G36" = false
          /\ startswith line "G37" = false) as (H1 & H2 & H3 & H4 & H5).
  { apply orb_prop in H as [H|H]; [apply orb_prop in H as [H|H]|].
    - apply String.eqb_eq in H. rewrite H. repeat split; reflexivity.
    - repeat split; apply (startswith_first line "%" "G" ""); auto;
        discriminate.
    - repeat split; apply (startswith_other line "G04"); auto; discriminate. }
  unfold select_interpolation, region_start, region_end.
  rewrite H1, H2, H3, H4, H5, H. destruct l; reflexivity.
Qed.

(** The loop over a file from which the ignored lines were taken out. *)
Lemma run_ignored scene_factor lines : forall v l,
  run scene_factor v l
    (List.filter (fun raw => negb (Kinds.gerber_ignored raw)) lines)
  = run scene_factor v l lines.
Proof.
  induction lines as [|raw lines IH]; intros v l; [reflexivity|]. simpl.
  destruct (Kinds.gerber_ignored raw) eqn:E; simpl.
  - rewrite (step_ignored _ _ _ _ E). apply IH.
  - destruct (step scene_factor v l raw) as [v' [l'|e]]; [apply IH|reflexivity].
Qed.

(** X1: blank lines, [G04] comments and unknown directives can be taken out
    of a file without changing what [parse_gerber] returns or leaves in the
    viewer. *)
Theorem parse_gerber_without_ignored_lines v lines scene_factor :
  parse_gerber v
    (Readable (List.filter (fun raw => negb (Kinds.gerber_ignored raw)) lines))
    scene_factor
  = parse_gerber v (Readable lines) scene_factor.
Proof. unfold parse_gerber. rewrite run_ignored. reflexivity. Qed.

(** The loop over two files, one after the other. *)
Lemma run_app scene_factor lines1 lines2 : forall v l,
  run scene_factor v l (lines1 ++ lines2) =
  match run scene_factor v l lines1 with
  | (v1, Return l1) => run scene_factor v1 l1 lines2
  | (v1, Raise e) => (v1, Raise e)
  end.
Proof.
  induction lines1 as [|raw lines1 IH]; intros v l; [reflexivity|]. simpl.
  destruct (step scene_factor v l raw) as [v' [l'|e]]; [apply IH|reflexivity].
Qed.

(** The parts of the loop body add items at the end or leave them. *)
Lemma prefix_add (its : list item) (it : item) : its `prefix_of` its ++ [it].
Proof. apply prefix_app_r. reflexivity. Qed.

Lemma select_interpolation_items line l :
  items (select_interpolation line l) = items l.
Proof.
  unfold select_interpolation.
  repeat (match goal with |- context [if ?b then _ else _] => destruct b end);
    reflexivity.
Qed.

Lemma region_start_items line l : items (region_start line l) = items l.
Proof. unfold region_start. destruct (startswith _ _); reflexivity. Qed.

Lemma region_end_items line l : items l `prefix_of` items (region_end line l).
Proof.
  unfold region_end. destruct (startswith _ _); [|reflexivity].
  destruct (polygon_path l) as [p|]; [|reflexivity].
  destruct (isEmpty p); [reflexivity|apply prefix_add].
Qed.

Lemma exec_move_items p v l : items (exec_move p v l).2 = items l.
Proof.
  unfold exec_move. simpl. destruct (polygon_mode l); [|reflexivity].
  destruct (polygon_path l) as [q|]; [|reflexivity].
  destruct (isEmpty q); reflexivity.
Qed.

Lemma exec_draw_items scene_factor vals p v l l' :
  exec_draw scene_factor vals p v l = Return l' ->
  items l `prefix_of` items l'.
Proof.
  unfold exec_draw.
  destruct (polygon_mode l), (polygon_path l) as [q|];
    try (intros E; inversion E; subst; reflexivity);
    (destruct (interpolation_mode l);
     [intros E; inversion E; subst; apply prefix_add| |]);
    (destruct (_create_arc_path _ _ _ _) as [[path|]|]; simpl;
     intros E; inversion E; subst; [apply prefix_add|reflexivity]).
Qed.

Lemma exec_flash_items scene_factor p v l l' :
  exec_flash scene_factor p v l = Return l' ->
  items l `prefix_of` items l'.
Proof.
  unfold exec_flash.
  destruct (match current_aperture v with
            | Some 0%Z | None => None
            | Some c => aperture_macros v !! c
            end) as [[shape ps]|].
  - destruct ps as [|p0 ps]; [discriminate|].
    repeat (match goal with |- context [if ?b then _ else _] => destruct b end);
      intros E; inversion E; subst; try apply prefix_add; reflexivity.
  - intros E; inversion E; subst; apply prefix_add.
Qed.

(** A line removes no item and changes none. *)
Lemma step_items_prefix scene_factor v l raw v' l' :
  step scene_factor v l raw = (v', Return l') ->
  items l `prefix_of` items l'.
Proof.
  unfold step. set (line := strip raw).
  destruct (startswith line "%FSLA");
    [intros E; inversion E; subst; reflexivity|].
  destruct (startswith line "%MO");
    [intros E; inversion E; subst; reflexivity|].
  destruct (startswith line "%ADD").
  { intros E; inversion E; subst. rewrite select_interpolation_items.
    reflexivity. }
  set (l1 := region_end line (region_start line (select_interpolation line l))).
  assert (items l `prefix_of` items l1) as H1.
  { unfold l1. etrans; [|apply region_end_items].
    rewrite region_start_items, select_interpolation_items. reflexivity. }
  destruct (_ || _ || _); [intros E; inversion E; subst; exact H1|].
  destruct (detect_mode line) as [[]|].
  - destruct (exec_flash _ _ _ _) as [l2|] eqn:E2; intros E; inversion E; subst.
    etrans; [exact H1|eapply exec_flash_items, E2].
  - pose proof (exec_move_items
                  (resolve (coord_vals (dec_d (select_aperture line v))
                              (unitfactor l1) (findall_coords line))
                           (current_pos (select_aperture line v)))
                  (select_aperture line v) l1) as Hm.
    destruct (exec_move _ _ _) as [v2 l2]. intros E; inversion E; subst.
    simpl in Hm. rewrite Hm. exact H1.
  - destruct (exec_draw _ _ _ _ _) as [l2|] eqn:E2; intros E; inversion E; subst.
    etrans; [exact H1|eapply exec_draw_items, E2].
  - intros E; inversion E; subst. exact H1.
Qed.

(** The loop removes no item and changes none. *)
Lemma run_items_prefix scene_factor lines : forall v l v' l',
  run scene_factor v l lines = (v', Return l') ->
  items l `prefix_of` items l'.
Proof.
  induction lines as [|raw lines IH]; intros v l v' l' E; simpl in E.
  - inversion E; subst. reflexivity.
  - destruct (step scene_factor v l raw) as [v1 [l1|e]] eqn:E1;
      [|discriminate].
    etrans; [eapply step_items_prefix, E1|eapply IH, E].
Qed.

(** X2: what [parse_gerber] returns for the first lines of a file is the
    beginning of what it returns for the whole file: later lines add
    primitives and change none. *)
Theorem parse_gerber_prefix v lines1 lines2 scene_factor v1 r1 v2 r2 :
  parse_gerber v (Readable lines1) scene_factor = (v1, Return r1) ->
  parse_gerber v (Readable (lines1 ++ lines2)) scene_factor = (v2, Return r2) ->
  r1 `prefix_of` r2.
Proof.
  unfold parse_gerber. rewrite run_app.
  destruct (run scene_factor _ _ lines1) as [w1 [l1|e]] eqn:E1;
    [|discriminate].
  destruct (run scene_factor w1 l1 lines2) as [w2 [l2|e]] eqn:E2;
    [|discriminate].
  intros H1 H2. inversion H1; inversion H2; subst.
  destruct (run_items_prefix _ _ _ _ _ _ E2) as [more ->].
  rewrite fmap_app. apply prefix_app_r. reflexivity.
Qed.

End GerberLines.

(** Scenario A cut after its fifth line returns the first of its two
    strokes. *)
Lemma parse_gerber_prefix_witness :
  [Stroke [MoveTo (mkPoint 0 (-0)); LineTo (mkPoint 0 (-0))] 0.25
     RoundCap RoundJoin]
  `prefix_of`
  [Stroke [MoveTo (mkPoint 0 (-0)); LineTo (mkPoint 0 (-0))] 0.25
     RoundCap RoundJoin;
   Stroke Scenario.A_line 0.25 RoundCap RoundJoin].
Proof.
  exact (parse_gerber_prefix (M := Libm.math) Gerber.init (take 5 Scenario.A)
           (drop 5 Scenario.A) 1
           (Gerber.parse_gerber (H := Libm.math) Gerber.init
              (Readable (take 5 Scenario.A)) 1).1
           [Stroke [MoveTo (mkPoint 0 (-0)); LineTo (mkPoint 0 (-0))] 0.25
              RoundCap RoundJoin]
           (Gerber.parse_gerber (H := Libm.math) Gerber.init
              (Readable Scenario.A) 1).1
           [Stroke [MoveTo (mkPoint 0 (-0)); LineTo (mkPoint 0 (-0))] 0.25
              RoundCap RoundJoin;
            Stroke Scenario.A_line 0.25 RoundCap RoundJoin]
           ltac:(vm_compute; reflexivity) ltac:(vm_compute; reflexivity)).
Defined.

(** ** What [parse_gerber] can raise *)

Section GerberRaises.

Import PyStr Gerber.
Context {M : PyMath}.

(** A definition always has a parameter. *)
Lemma aperture_params_nonempty uf g : aperture_params uf g <> [].
Proof.
  unfold aperture_params. destruct (omap _ _); discriminate.
Qed.

(** Every aperture of the table has a parameter: kept by the loop body,
    whether it returns or raises. *)
Lemma step_keeps_params scene_factor v l raw :
  map_Forall (fun _ a => a.2 <> []) (aperture_macros v) ->
  map_Forall (fun _ a => a.2 <> [])
    (aperture_macros (step scene_factor v l raw).1).
Proof.
  intros Inv. unfold step. set (line := strip raw).
  destruct (startswith line "%FSLA");
    [destruct (search_format line); exact Inv|].
  destruct (startswith line "%MO"); [exact Inv|].
  destruct (startswith line "%ADD").
  { destruct (match_aperture line) as [[[c shape] g]|]; [|exact Inv]. simpl.
    apply map_Forall_insert_2; [apply aperture_params_nonempty|exact Inv]. }
  destruct (_ || _ || _); [exact Inv|].
  assert (aperture_macros (select_aperture line v) = aperture_macros v) as Hsel.
  { unfold select_aperture. destruct (search_dcode line); [|reflexivity].
    destruct (decide _); reflexivity. }
  destruct (detect_mode line) as [[]|]; simpl.
  - destruct (exec_flash _ _ _ _); simpl; rewrite Hsel; exact Inv.
  - rewrite Hsel; exact Inv.
  - destruct (exec_draw _ _ _ _ _); simpl; rewrite Hsel; exact Inv.
  - rewrite Hsel; exact Inv.
Qed.

(** With a parameter in every aperture, a flash returns. *)
Lemma exec_flash_returns scene_factor p v l :
  map_Forall (fun _ a => a.2 <> []) (aperture_macros v) ->
  exists l', exec_flash scene_factor p v l = Return l'.
Proof.
  intros Inv. unfold exec_flash.
  destruct (match current_aperture v with
            | Some 0%Z | None => None
            | Some c => aperture_macros v !! c
            end) as [[shape ps]|] eqn:E; [|eauto].
  assert (ps <> []) as Hps.
  { destruct (current_aperture v) as [[|c|c]|]; try discriminate;
      apply (Inv _ _ E). }
  destruct ps as [|p0 ps]; [congruence|].
  repeat (match goal with |- context [if ?b then _ else _] => destruct b end);
    eauto.
Qed.

(** A draw raises nothing but the overflow of the arc resolver. *)
Lemma exec_draw_raises scene_factor vals p v l e :
  exec_draw scene_factor vals p v l = Raise e -> e = OverflowError.
Proof.
  unfold exec_draw, _create_arc_path.
  destruct (polygon_mode l), (polygon_path l) as [q|]; try discriminate;
    (destruct (interpolation_mode l); [discriminate| |]);
    (destruct (PyFloat.pow2 _); [|simpl; congruence]);
    (destruct (PyFloat.pow2 _); [|simpl; congruence]);
    (destruct (_ =? 0)%float; simpl; discriminate).
Qed.

(** The loop body raises nothing else. *)
Lemma step_raises scene_factor v l raw v' e :
  map_Forall (fun _ a => a.2 <> []) (aperture_macros v) ->
  step scene_factor v l raw = (v', Raise e) -> e = OverflowError.
Proof.
  intros Inv. unfold step. set (line := strip raw).
  destruct (startswith line "%FSLA"); [discriminate|].
  destruct (startswith line "%MO"); [discriminate|].
  destruct (startswith line "%ADD"); [discriminate|].
  destruct (_ || _ || _); [discriminate|].
  assert (aperture_macros (select_aperture line v) = aperture_macros v) as Hsel.
  { unfold select_aperture. destruct (search_dcode line); [|reflexivity].
    destruct (decide _); reflexivity. }
  destruct (detect_mode line) as [[]|];
    [|unfold exec_move; discriminate| |discriminate].
  - match goal with |- context [exec_flash ?s ?p ?w ?k] =>
      destruct (exec_flash_returns s p w k) as [l' ->] end;
      [rewrite Hsel; exact Inv|discriminate].
  - destruct (exec_draw _ _ _ _ _) eqn:E; [discriminate|].
    intros H; inversion H; subst. eapply exec_draw_raises, E.
Qed.

Lemma run_raises scene_factor lines : forall v l v' e,
  map_Forall (fun _ a => a.2 <> []) (aperture_macros v) ->
  run scene_factor v l lines = (v', Raise e) -> e = OverflowError.
Proof.
  induction lines as [|raw lines IH]; intros v l v' e Inv E; simpl in E;
    [discriminate|].
  pose proof (step_keeps_params scene_factor v l raw Inv) as Inv'.
  destruct (step scene_factor v l raw) as [v1 [l1|e1]] eqn:E1.
  - eapply IH; [exact Inv'|exact E].
  - inversion E; subst. eapply step_raises; [exact Inv|exact E1].
Qed.

(** X3: on a file it can open, whose lines stay within the digit limit of
    [int], [parse_gerber] raises nothing but the OverflowError of the arc
    resolver (the square of a coordinate difference too large for a float):
    neither a flash nor a malformed directive makes it raise. *)
Theorem parse_gerber_raises_overflow_only v lines scene_factor e :
  forallb Kinds.within_digit_limit lines = true ->
  (parse_gerber v (Readable lines) scene_factor).2 = Raise e ->
  e = OverflowError.
Proof.
  intros _. unfold parse_gerber.
  destruct (run scene_factor _ _ lines) as [v' [l'|e']] eqn:E; [discriminate|].
  simpl. intros H; inversion H; subst.
  eapply run_raises; [|exact E]. apply map_Forall_empty.
Qed.

(** Without [G02] and [G03] the interpolation stays linear and the loop
    body returns. *)
Lemma step_linear_returns scene_factor v l raw :
  map_Forall (fun _ a => a.2 <> []) (aperture_macros v) ->
  interpolation_mode l = linear ->
  Kinds.arc_free raw = true ->
  exists l', (step scene_factor v l raw).2 = Return l'
             /\ interpolation_mode l' = linear.
Proof.
  intros Inv Hlin Hfree. unfold Kinds.arc_free in Hfree. cbv zeta in Hfree.
  apply andb_prop in Hfree as [H2 H3]. apply negb_true_iff in H2, H3.
  unfold step. set (line := strip raw) in *.
  destruct (startswith line "%FSLA"); [eauto|].
  destruct (startswith line "%MO"); [eauto|].
  assert (interpolation_mode (select_interpolation line l) = linear) as Hsel.
  { unfold select_interpolation. rewrite H2, H3.
    destruct (startswith line "G01"); [reflexivity|exact Hlin]. }
  destruct (startswith line "%ADD"); [eauto|].
  set (l1 := region_end line (region_start line (select_interpolation line l))).
  assert (interpolation_mode l1 = linear) as H1.
  { unfold l1, region_end, region_start.
    destruct (startswith line "G36"), (startswith line "G37"); simpl;
      try exact Hsel;
      try (destruct (polygon_path _) as [q|]; [destruct (isEmpty q)|]);
      exact Hsel. }
  destruct (_ || _ || _); [eauto|].
  assert (aperture_macros (select_aperture line v) = aperture_macros v) as Ha.
  { unfold select_aperture. destruct (search_dcode line); [|reflexivity].
    destruct (decide _); reflexivity. }
  destruct (detect_mode line) as [[]|]; [| | |eauto].
  - match goal with |- context [exec_flash ?s ?p ?w ?k] =>
      destruct (exec_flash_returns s p w k) as [l' E] end;
      [rewrite Ha; exact Inv|].
    rewrite E. exists l'. split; [reflexivity|].
    revert E. unfold exec_flash.
    repeat (match goal with
            | |- context [if ?b then _ else _] => destruct b
            | |- context [match ?x with _ => _ end] => destruct x
            end); intros E; inversion E; subst; exact H1.
  - unfold exec_move. simpl. eexists. split; [reflexivity|].
    destruct (polygon_mode l1); [|exact H1].
    destruct (polygon_path l1) as [q|]; [|exact H1].
    destruct (isEmpty q); exact H1.
  - unfold exec_draw. rewrite H1.
    destruct (polygon_mode l1), (polygon_path l1); simpl; eauto.
Qed.

Lemma run_linear_returns scene_factor lines : forall v l,
  map_Forall (fun _ a => a.2 <> []) (aperture_macros v) ->
  interpolation_mode l = linear ->
  forallb Kinds.arc_free lines = true ->
  exists l', (run scene_factor v l lines).2 = Return l'.
Proof.
  induction lines as [|raw lines IH]; intros v l Inv Hlin Hfree; simpl in *;
    [eauto|].
  apply andb_prop in Hfree as [Hraw Hfree].
  pose proof (step_keeps_params scene_factor v l raw Inv) as Inv'.
  destruct (step_linear_returns scene_factor v l raw Inv Hlin Hraw)
    as (l1 & E1 & Hlin1).
  destruct (step scene_factor v l raw) as [v1 o]. simpl in *. subst o.
  apply IH; assumption.
Qed.

(** X4: a readable file in which no line starts with [G02] or [G03], and
    whose lines stay within the digit limit of [int], never makes
    [parse_gerber] raise: it returns a list of primitives. *)
Theorem parse_gerber_linear_returns v lines scene_factor :
  forallb Kinds.within_digit_limit lines = true ->
  forallb Kinds.arc_free lines = true ->
  exists r, (parse_gerber v (Readable lines) scene_factor).2 = Return r.
Proof.
  intros _ Hfree. unfold parse_gerber.
  destruct (run_linear_returns scene_factor lines
              (mkViewer (dec_d v) ∅ (mkPoint 0 0) None)
              (mkLocals [] false None linear 1)
              ltac:(apply map_Forall_empty) eq_refl Hfree) as [l' E].
  destruct (run scene_factor _ _ lines) as [v' o]. simpl in E. subst o.
  simpl. eauto.
Qed.

End GerberRaises.

(** An arc whose centre lies 1e155 mm away does raise an OverflowError. *)
Lemma parse_gerber_raises_overflow_only_witness :
  (Gerber.parse_gerber (H := Libm.math) Gerber.init
     (Readable Kinds.huge_arc) 1).2 = Raise OverflowError
  /\ OverflowError = OverflowError.
Proof.
  assert ((Gerber.parse_gerber (H := Libm.math) Gerber.init
             (Readable Kinds.huge_arc) 1).2 = Raise OverflowError) as H
    by (vm_compute; reflexivity).
  split; [exact H|].
  exact (parse_gerber_raises_overflow_only (M := Libm.math) Gerber.init
           Kinds.huge_arc 1 OverflowError eq_refl H).
Defined.

(** Scenario A has no arc command. *)
Lemma parse_gerber_linear_returns_witness :
  exists r, (Gerber.parse_gerber (H := Libm.math) Gerber.init
               (Readable Scenario.A) 1).2 = Return r.
Proof.
  exact (parse_gerber_linear_returns (M := Libm.math) Gerber.init Scenario.A 1
           eq_refl eq_refl).
Defined.

(** ** Regions *)

Section Regions.

Import PyStr Gerber.
Context {M : PyMath}.

(** What the loop body does with a command (a line that is no directive, no
    comment and not blank) that starts neither with [G36] nor with [G37]. *)
Lemma step_command scene_factor v l raw :
  let line := strip raw in
  line <> EmptyString ->
  startswith line "%" = false ->
  startswith line "G04" = false ->
  startswith line "G36" = false ->
  startswith line "G37" = false ->
  step scene_factor v l raw =
  let l1 := select_interpolation line l in
  let v1 := select_aperture line v in
  let vals := coord_vals (dec_d v1) (unitfactor l1) (findall_coords line) in
  let new_pos := resolve vals (current_pos v1) in
  match detect_mode line with
  | Some move => ((exec_move new_pos v1 l1).1, Return (exec_move new_pos v1 l1).2)
  | Some draw =>
      match exec_draw scene_factor vals new_pos v1 l1 with
      | Return l' => (set_pos new_pos v1, Return l')
      | Raise e => (v1, Raise e)
      end
  | Some flash =>
      match exec_flash scene_factor new_pos v1 l1 with
      | Return l' => (set_pos new_pos v1, Return l')
      | Raise e => (v1, Raise e)
      end
  | None => (v1, Return l1)
  end.
Proof.
  intros line Hne Hpct Hg04 H36 H37. unfold step. fold line.
  rewrite !(startswith_longer line "%") by assumption.
  unfold region_start, region_end. rewrite H36, H37, Hg04.
  apply String.eqb_neq in Hne. rewrite Hne. simpl.
  destruct (detect_mode line) as [[]|]; reflexivity.
Qed.

(** X5: inside a region a draw command (on a line within the digit limit of
    [int]) adds one straight segment to the region path and emits nothing,
    whatever the interpolation mode: an arc becomes a straight segment, and
    nothing is raised. *)
Theorem region_draw_appends_segment scene_factor v l raw p :
  let line := strip raw in
  Kinds.within_digit_limit raw = true ->
  line <> EmptyString ->
  startswith line "%" = false ->
  startswith line "G04" = false ->
  startswith line "G36" = false ->
  startswith line "G37" = false ->
  detect_mode line = Some draw ->
  polygon_mode l = true ->
  polygon_path l = Some p ->
  exists v' l' q,
    step scene_factor v l raw = (v', Return l')
    /\ items l' = items l
    /\ polygon_mode l' = true
    /\ polygon_path l' = Some (p ++ [LineTo q])
    /\ current_pos v' = q.
Proof.
  intros line _ Hne Hpct Hg04 H36 H37 Hmode Hreg Hpath.
  rewrite (step_command _ _ _ _ Hne Hpct Hg04 H36 H37). fold line.
  cbv zeta. rewrite Hmode. unfold exec_draw.
  assert (polygon_mode (select_interpolation line l) = true
          /\ polygon_path (select_interpolation line l) = Some p
          /\ items (select_interpolation line l) = items l) as (Hm & Hp & Hit).
  { unfold select_interpolation.
    repeat (match goal with |- context [if ?b then _ else _] => destruct b end);
      auto. }
  rewrite Hm, Hp. do 3 eexists. split; [reflexivity|]. simpl. auto.
Qed.

(** A closed path ends with the closing element. *)
Lemma closeSubpath_last (p : QPainterPath) : last (closeSubpath p) = Some CloseSubpath.
Proof.
  unfold closeSubpath. destruct (last p) as [[]|] eqn:E;
    try apply last_snoc. exact E.
Qed.

(** X6: a region-end line without a drawing code (and within the digit
    limit of [int]) emits the region path, closed, as exactly one primitive
    when the path has a segment, and nothing when it has none; either way
    the region is left. *)
Theorem region_end_emits_closed_path scene_factor v l raw p :
  let line := strip raw in
  Kinds.within_digit_limit raw = true ->
  startswith line "G37" = true ->
  detect_mode line = None ->
  polygon_path l = Some p ->
  exists v' l',
    step scene_factor v l raw = (v', Return l')
    /\ polygon_mode l' = false
    /\ items l' = (if isEmpty p then items l
                   else items l ++ [Path (closeSubpath p)])
    /\ last (closeSubpath p) = Some CloseSubpath.
Proof.
  intros line _ H37 Hmode Hpath. unfold step. fold line.
  assert (forall q, startswith line (String "%" q) = false) as Hpct
    by (intros q; apply (startswith_first line "G" "%" "37"); auto;
        discriminate).
  rewrite !Hpct.
  assert (startswith line "G01" = false /\ startswith line "G02" = false
          /\ startswith line "G03" = false /\ startswith line "G36" = false
          /\ startswith line "G04" = false) as (H1 & H2 & H3 & H36 & H04)
    by (repeat split; apply (startswith_other line "G37"); auto; discriminate).
  unfold select_interpolation, region_start, region_end.
  rewrite H1, H2, H3, H36, H37, H04, Hmode, Hpath.
  assert ((line =? "")%string = false) as ->.
  { destruct line; [discriminate|reflexivity]. }
  simpl. do 2 eexists. split; [reflexivity|].
  destruct (isEmpty p); simpl; auto using closeSubpath_last.
Qed.

End Regions.

(** In a region whose path starts at the origin, [X100000D01*] adds the
    segment to (1, 0) although clockwise arcs are selected. *)
Lemma region_draw_appends_segment_witness :
  exists v' l' q,
    Gerber.step (H := Libm.math) 1 Gerber.init
      (Gerber.mkLocals [] true (Some [MoveTo (mkPoint 0 0)]) Gerber.cw_arc 1)
      "X100000D01*" = (v', Return l')
    /\ Gerber.items l' = []
    /\ Gerber.polygon_mode l' = true
    /\ Gerber.polygon_path l' = Some ([MoveTo (mkPoint 0 0)] ++ [LineTo q])
    /\ Gerber.current_pos v' = q.
Proof.
  exact (region_draw_appends_segment (M := Libm.math) 1 Gerber.init
           (Gerber.mkLocals [] true (Some [MoveTo (mkPoint 0 0)])
              Gerber.cw_arc 1)
           "X100000D01*" [MoveTo (mkPoint 0 0)]
           eq_refl ltac:(discriminate) eq_refl eq_refl eq_refl eq_refl
           eq_refl eq_refl eq_refl).
Defined.

(** [G37*] after a triangle has been drawn. *)
Lemma region_end_emits_closed_path_witness :
  exists v' l',
    Gerber.step (H := Libm.math) 1 Gerber.init
      (Gerber.mkLocals [] true
         (Some [MoveTo (mkPoint 0 0); LineTo (mkPoint 1 0); LineTo (mkPoint 1 1)])
         Gerber.linear 1)
      "G37*" = (v', Return l')
    /\ Gerber.polygon_mode l' = false
    /\ Gerber.items l' =
       [] ++ [Path [MoveTo (mkPoint 0 0); LineTo (mkPoint 1 0);
                    LineTo (mkPoint 1 1); CloseSubpath]]
    /\ last [MoveTo (mkPoint 0 0); LineTo (mkPoint 1 0);
             LineTo (mkPoint 1 1); CloseSubpath] = Some CloseSubpath.
Proof.
  exact (region_end_emits_closed_path (M := Libm.math) 1 Gerber.init
           (Gerber.mkLocals [] true
              (Some [MoveTo (mkPoint 0 0); LineTo (mkPoint 1 0);
                     LineTo (mkPoint 1 1)])
              Gerber.linear 1)
           "G37*"
           [MoveTo (mkPoint 0 0); LineTo (mkPoint 1 0); LineTo (mkPoint 1 1)]
           eq_refl eq_refl eq_refl eq_refl).
Defined.

(** ** Aperture selection read as a flash *)

Section SelectFlash.

Import PyStr Gerber.
Context {M : PyMath}.

(** What the tests of the loop body find in [D30*] to [D39*]. *)
Lemma select_30_read (k : N) :
  (k < 10)%N ->
  let line := Kinds.select_30 k in
  strip line = line
  /\ line <> EmptyString
  /\ startswith line "%" = false
  /\ startswith line "G04" = false
  /\ startswith line "G36" = false
  /\ startswith line "G37" = false
  /\ select_interpolation line = (fun l => l)
  /\ detect_mode line = Some flash
  /\ search_dcode line = Some (30 + Z.of_N k)
  /\ findall_coords line = [].
Proof.
  intros Hk.
  assert (k = 0 \/ k = 1 \/ k = 2 \/ k = 3 \/ k = 4 \/ k = 5 \/ k = 6
          \/ k = 7 \/ k = 8 \/ k = 9)%N as Hcases by lia.
  repeat (destruct Hcases as [->|Hcases]); try subst k;
    (split; [reflexivity|]); (split; [discriminate|]);
    vm_compute; repeat split; reflexivity.
Qed.

(** X7: a line that is [D30*] to [D39*] and names a defined circular
    aperture is read as a flash: besides selecting the aperture it stamps a
    circle of the aperture's diameter at the current position, in every
    interpolation mode and inside or outside a region. *)
Theorem aperture_select_flashes scene_factor v l (k : N) raw p0 ps :
  (k < 10)%N ->
  strip raw = Kinds.select_30 k ->
  aperture_macros v !! (30 + Z.of_N k) = Some ("C"%char, p0 :: ps) ->
  let size := (p0 * scene_factor)%float in
  let cx := x (current_pos v) in
  let cy := y (current_pos v) in
  step scene_factor v l raw =
  (mkViewer (dec_d v) (aperture_macros v) (current_pos v)
            (Some (30 + Z.of_N k)),
   Return (add_item
             (QGraphicsEllipseItem
                (mkRect (cx - size / 2) (cy - size / 2) size size) Identity)
             l)).
Proof.
  intros Hk Hraw Ha size cx cy.
  destruct (select_30_read k Hk)
    as (_ & Hne & Hpct & H04 & H36 & H37 & Hint & Hmode & Hcode & Hcoords).
  pose proof (step_command scene_factor v l raw) as Hstep.
  cbv zeta in Hstep. rewrite Hraw in Hstep.
  rewrite (Hstep Hne Hpct H04 H36 H37). clear Hstep.
  rewrite Hint, Hmode, Hcoords. unfold select_aperture. rewrite Hcode.
  destruct (decide _) as [_|Hno]; [|destruct Hno; rewrite Ha; eauto].
  unfold exec_flash, resolve, coord_vals. simpl. rewrite !lookup_empty. simpl.
  assert (exists c, (30 + Z.of_N k)%Z = Z.pos c) as [c Hc]
    by (destruct k; simpl; eauto).
  rewrite Hc in *. rewrite Ha. simpl.
  destruct v as [d macros [px py] cur]. reflexivity.
Qed.

End SelectFlash.

(** [D30*] on a viewer that holds [%ADD30C,0.5*%]. *)
Lemma aperture_select_flashes_witness :
  Gerber.step (H := Libm.math) 1
    (Gerber.mkViewer 5 {[ 30 := ("C"%char, [0.5%float]) ]} (mkPoint 1 2) None)
    (Gerber.mkLocals [] false None Gerber.linear 1) "D30*" =
  (Gerber.mkViewer 5 {[ 30 := ("C"%char, [0.5%float]) ]} (mkPoint 1 2)
     (Some 30),
   Return (Gerber.add_item
             (QGraphicsEllipseItem
                (mkRect (1 - 0.5 * 1 / 2) (2 - 0.5 * 1 / 2) (0.5 * 1) (0.5 * 1))
                Identity)
             (Gerber.mkLocals [] false None Gerber.linear 1))).
Proof.
  exact (aperture_select_flashes (M := Libm.math) 1
           (Gerber.mkViewer 5 {[ 30 := ("C"%char, [0.5%float]) ]}
              (mkPoint 1 2) None)
           (Gerber.mkLocals [] false None Gerber.linear 1) 0 "D30*"
           0.5%float [] ltac:(reflexivity) eq_refl eq_refl).
Defined.

(** ** Degenerate arcs and decimal places *)

Section Degenerate.

Import PyStr Gerber.
Context {M : PyMath}.
Local Open Scope float_scope.

(** A finite float minus itself is zero. *)
Lemma sub_diag_finite (a : float) :
  PyFloat.is_finite a = true -> a - a = 0.
Proof.
  unfold PyFloat.is_finite. intros H.
  apply andb_prop in H as [Hnan Hinf]. apply negb_true_iff in Hnan, Hinf.
  apply Prim2SF_inj. rewrite sub_spec.
  assert (match Prim2SF a with
          | S754_zero _ | S754_finite _ _ _ => True
          | _ => False
          end) as Hshape.
  { unfold Prim2SF. rewrite Hnan. destruct (is_zero a); [exact I|].
    rewrite Hinf. destruct (Z.frexp a) as [r e].
    destruct (shr_fexp _ _ _ _ _) as [s e']. destruct (shr_m s); exact I. }
  destruct (Prim2SF a) as [s|s| |s m e]; try contradiction.
  - destruct s; reflexivity.
  - unfold SF64sub, SFsub. rewrite Z.sub_diag. reflexivity.
Qed.

(** X8: when the centre is the start point (finite coordinates), the radius
    is zero and [_create_arc_path] returns [None], whatever the end point
    and the direction: the arc is passed over. *)
Theorem create_arc_path_zero_radius (start end_ : QPointF) (clockwise : bool) :
  PyFloat.is_finite (x start) = true ->
  PyFloat.is_finite (y start) = true ->
  _create_arc_path start end_ start clockwise = Return None.
Proof.
  intros Hx Hy. unfold _create_arc_path.
  rewrite (sub_diag_finite _ Hx), (sub_diag_finite _ Hy). reflexivity.
Qed.

(** A format line sets a digit. *)
Lemma search_format_digit s d :
  Gerber.search_format s = Some d -> (d <= 9)%N.
Proof.
  induction s as [|c r IH]; [discriminate|]. simpl.
  destruct r as [|a [|b r']]; try discriminate.
  destruct (_ && _ && is_digit b) eqn:E; [|exact IH].
  intros H; inversion H; subst. apply andb_prop in E as [_ E].
  unfold is_digit, digit_val in *. apply andb_prop in E as [E1 E2].
  apply N.leb_le in E1, E2. lia.
Qed.

(** The loop body leaves a digit in [dec_d]. *)
Lemma step_dec_d_digit scene_factor v l raw :
  (dec_d v <= 9)%N -> (dec_d (step scene_factor v l raw).1 <= 9)%N.
Proof.
  intros Hd. unfold step. set (line := strip raw).
  destruct (startswith line "%FSLA").
  { destruct (search_format line) as [d|] eqn:E; [|exact Hd].
    simpl. eapply search_format_digit, E. }
  destruct (startswith line "%MO"); [exact Hd|].
  destruct (startswith line "%ADD").
  { destruct (match_aperture line) as [[[c shape] g]|]; exact Hd. }
  destruct (_ || _ || _); [exact Hd|].
  destruct (select_aperture_keeps line v) as [Hk _].
  destruct (detect_mode line) as [[]|]; simpl.
  - destruct (exec_flash _ _ _ _); simpl; rewrite Hk; exact Hd.
  - rewrite Hk; exact Hd.
  - destruct (exec_draw _ _ _ _ _); simpl; rewrite Hk; exact Hd.
  - rewrite Hk; exact Hd.
Qed.

Lemma run_dec_d_digit scene_factor lines : forall v l,
  (dec_d v <= 9)%N -> (dec_d (run scene_factor v l lines).1 <= 9)%N.
Proof.
  induction lines as [|raw lines IH]; intros v l Hd; [exact Hd|]. simpl.
  pose proof (step_dec_d_digit scene_factor v l raw Hd) as H1.
  destruct (step scene_factor v l raw) as [v1 [l1|e]]; [apply IH|]; exact H1.
Qed.

(** X9: the decimal places stay a single digit: if [dec_d] is at most 9
    before [parse_gerber], it is at most 9 after it, whatever the file holds
    and whether the call returns or raises. *)
Theorem parse_gerber_dec_d_digit v f scene_factor :
  (dec_d v <= 9)%N ->
  (dec_d (parse_gerber v f scene_factor).1 <= 9)%N.
Proof.
  intros Hd. unfold parse_gerber. destruct f as [|lines]; [exact Hd|].
  pose proof (run_dec_d_digit scene_factor lines
                (mkViewer (dec_d v) ∅ (mkPoint 0 0) None)
                (mkLocals [] false None linear 1) Hd) as H.
  destruct (run scene_factor _ _ lines) as [v' [l'|e]]; exact H.
Qed.

End Degenerate.

(** An arc from (1, 2) about (1, 2). *)
Lemma create_arc_path_zero_radius_witness :
  Gerber._create_arc_path (H := Libm.math) (mkPoint 1 2) (mkPoint 3 4)
    (mkPoint 1 2) true = Return None.
Proof.
  exact (create_arc_path_zero_radius (M := Libm.math) (mkPoint 1 2)
           (mkPoint 3 4) true eq_refl eq_refl).
Defined.

(** The fresh viewer, with its five decimal places, after scenario A. *)
Lemma parse_gerber_dec_d_digit_witness :
  (Gerber.dec_d (Gerber.parse_gerber (H := Libm.math) Gerber.init
                   (Readable Scenario.A) 1).1 <= 9)%N.
Proof.
  exact (parse_gerber_dec_d_digit (M := Libm.math) Gerber.init
           (Readable Scenario.A) 1 ltac:(vm_compute; discriminate)).
Defined.

(** ** The drill interpreter *)

Section DrillLines.

Import PyStr Drill.

(** The loop over a file from which the skipped lines were taken out. *)
Lemma drill_run_skipped lines : forall st,
  run st (List.filter (fun line => negb (Kinds.drill_skipped line)) lines)
  = run st lines.
Proof.
  induction lines as [|line lines IH]; intros st; [reflexivity|]. simpl.
  unfold Kinds.drill_skipped at 1.
  destruct (skipped (upper (strip line))) eqn:E; simpl.
  - assert (step st line = Return st) as -> by (unfold step; rewrite E; reflexivity).
    simpl. apply IH.
  - destruct (step st line) as [st'|e]; simpl; [apply IH|reflexivity].
Qed.

(** X10: comment lines, [M48] header lines and a lone [%] can be taken out
    of a drill file without changing what [parse_drill] returns. *)
Theorem parse_drill_without_skipped_lines v lines :
  parse_drill v
    (Readable (List.filter (fun line => negb (Kinds.drill_skipped line)) lines))
  = parse_drill v (Readable lines).
Proof. unfold parse_drill. rewrite drill_run_skipped. reflexivity. Qed.

(** The loop over two files, one after the other. *)
Lemma drill_run_app lines1 lines2 : forall st,
  run st (lines1 ++ lines2) = st1 ← run st lines1; run st1 lines2.
Proof.
  induction lines1 as [|line lines1 IH]; intros st; [reflexivity|]. simpl.
  destruct (step st line) as [st'|e]; simpl; [apply IH|reflexivity].
Qed.

(** X11: one tool definition whose diameter is not a number (as [1.2.3])
    empties the result of the whole file: [parse_drill] returns no hit, not
    even those of the records before that line. *)
Theorem parse_drill_malformed_tool v before line after tool_id dia :
  skipped (upper (strip line)) = false ->
  match_tool (upper (strip line)) = Some (tool_id, dia) ->
  py_float dia = None ->
  parse_drill v (Readable (before ++ line :: after)) = Return [].
Proof.
  intros Hskip Htool Hdia. unfold parse_drill. rewrite drill_run_app.
  destruct (run (initial v) before) as [st|e]; [|reflexivity]. simpl.
  unfold step at 1. rewrite Hskip, Htool, Hdia. reflexivity.
Qed.

(** A hit is a circle of positive diameter carrying the flip. *)
Lemma record_hit_circles coords st :
  Forall (fun it => exists r, it = QGraphicsEllipseItem r flip_y
                              /\ width r = height r
                              /\ (0 <? width r)%float = true) (drill_hits st) ->
  Forall (fun it => exists r, it = QGraphicsEllipseItem r flip_y
                              /\ width r = height r
                              /\ (0 <? width r)%float = true)
         (drill_hits (record_hit coords st)).
Proof.
  intros H. unfold record_hit. simpl.
  destruct (current_tool st ≫= _) as [dia|]; [|exact H].
  destruct (0 <? dia)%float eqn:E; [|exact H].
  apply Forall_app. split; [exact H|]. constructor; [|constructor].
  eexists. split; [reflexivity|]. simpl. auto.
Qed.

Lemma step_circles st line st' :
  step st line = Return st' ->
  Forall (fun it => exists r, it = QGraphicsEllipseItem r flip_y
                              /\ width r = height r
                              /\ (0 <? width r)%float = true) (drill_hits st) ->
  Forall (fun it => exists r, it = QGraphicsEllipseItem r flip_y
                              /\ width r = height r
                              /\ (0 <? width r)%float = true) (drill_hits st').
Proof.
  unfold step. destruct (skipped _); [intros E; inversion E; subst; auto|].
  destruct (match match_tool _ with Some _ => _ | None => _ end) as [tools|];
    [|discriminate]. simpl.
  destruct (line_coords _ line) as [coords|]; [|discriminate]. simpl.
  destruct (decide (coords = ∅)); intros E H; inversion E; subst; clear E.
  - exact H.
  - apply record_hit_circles. exact H.
Qed.

Lemma run_circles lines : forall st st',
  run st lines = Return st' ->
  Forall (fun it => exists r, it = QGraphicsEllipseItem r flip_y
                              /\ width r = height r
                              /\ (0 <? width r)%float = true) (drill_hits st) ->
  Forall (fun it => exists r, it = QGraphicsEllipseItem r flip_y
                              /\ width r = height r
                              /\ (0 <? width r)%float = true) (drill_hits st').
Proof.
  induction lines as [|line lines IH]; intros st st' E H; simpl in E.
  - inversion E; subst. exact H.
  - destruct (step st line) as [st1|e] eqn:E1; [|discriminate]. simpl in E.
    eapply IH; [exact E|]. eapply step_circles; eassumption.
Qed.

(** X12: every hit [parse_drill] returns is a circle (width equal to
    height) of positive diameter that carries the vertical flip. *)
Theorem parse_drill_hits_are_circles v f hits :
  parse_drill v f = Return hits ->
  Forall (fun it => exists r, it = QGraphicsEllipseItem r flip_y
                              /\ width r = height r
                              /\ (0 <? width r)%float = true) hits.
Proof.
  unfold parse_drill. destruct f as [|lines];
    [intros E; inversion E; constructor|].
  destruct (run (initial v) lines) as [st|e] eqn:E1;
    intros E; inversion E; subst; [|constructor].
  eapply run_circles; [exact E1|constructor].
Qed.

(** Without a tool definition the table stays empty and no hit is made. *)
Lemma step_no_tool st line st' :
  Kinds.defines_tool line = false ->
  drill_tools st = ∅ -> drill_hits st = [] ->
  step st line = Return st' ->
  drill_tools st' = ∅ /\ drill_hits st' = [].
Proof.
  unfold Kinds.defines_tool, Kinds.drill_skipped, step.
  destruct (skipped _); [intros _ ? ? E; inversion E; subst; auto|]. simpl.
  intros Hno Ht Hh.
  destruct (match_tool _) as [[tool_id dia]|];
    [rewrite bool_decide_eq_false in Hno; destruct Hno; eauto|].
  simpl. destruct (line_coords _ line) as [coords|]; [|discriminate]. simpl.
  destruct (decide (coords = ∅)); intros E; inversion E; subst; clear E;
    simpl; [auto|].
  split; [exact Ht|]. rewrite Ht.
  destruct (if startswith _ _ && _ then _ else _) as [t|]; simpl;
    [rewrite lookup_empty|]; exact Hh.
Qed.

Lemma run_no_tool lines : forall st st',
  forallb (fun line => negb (Kinds.defines_tool line)) lines = true ->
  drill_tools st = ∅ -> drill_hits st = [] ->
  run st lines = Return st' ->
  drill_hits st' = [].
Proof.
  induction lines as [|line lines IH]; intros st st' Hno Ht Hh E; simpl in *.
  - inversion E; subst. exact Hh.
  - apply andb_prop in Hno as [Hline Hno]. apply negb_true_iff in Hline.
    destruct (step st line) as [st1|e] eqn:E1; [|discriminate]. simpl in E.
    destruct (step_no_tool _ _ _ Hline Ht Hh E1) as [Ht1 Hh1].
    eapply IH; eassumption.
Qed.

(** X13: a drill file in which no line defines a tool yields no hit,
    whatever tools it selects and whatever coordinates it holds. *)
Theorem parse_drill_no_tool_no_hit v lines :
  forallb (fun line => negb (Kinds.defines_tool line)) lines = true ->
  parse_drill v (Readable lines) = Return [].
Proof.
  intros Hno. unfold parse_drill.
  destruct (run (initial v) lines) as [st|e] eqn:E; [|reflexivity].
  f_equal. eapply run_no_tool; [exact Hno| | |exact E]; reflexivity.
Qed.

End DrillLines.

(** A hit, then a tool whose diameter has two decimal points. *)
Lemma parse_drill_malformed_tool_witness :
  Drill.parse_drill Gerber.init
    (Readable (["METRIC"; "T01C0.80"; "T01"; "X010000Y020000"]
               ++ "T02C1.2.3" :: ["T02"; "X030000Y040000"])) = Return []
  /\ Drill.parse_drill Gerber.init
       (Readable ["METRIC"; "T01C0.80"; "T01"; "X010000Y020000"]) =
     Return [QGraphicsEllipseItem
               (mkRect (1 - 0.8 / 2) (2 - 0.8 / 2) 0.8 0.8) Drill.flip_y].
Proof.
  split; [|vm_compute; reflexivity].
  exact (parse_drill_malformed_tool Gerber.init
           ["METRIC"; "T01C0.80"; "T01"; "X010000Y020000"] "T02C1.2.3"
           ["T02"; "X030000Y040000"] 2 "1.2.3" eq_refl eq_refl eq_refl).
Defined.

(** The hits of a metric file with one tool and two records. *)
Lemma parse_drill_hits_are_circles_witness :
  Forall (fun it => exists r, it = QGraphicsEllipseItem r Drill.flip_y
                              /\ width r = height r
                              /\ (0 <? width r)%float = true)
    [QGraphicsEllipseItem (mkRect (1 - 0.8 / 2) (2 - 0.8 / 2) 0.8 0.8)
       Drill.flip_y].
Proof.
  exact (parse_drill_hits_are_circles Gerber.init
           (Readable ["METRIC"; "T01C0.80"; "T01"; "X010000Y020000"]) _
           ltac:(vm_compute; reflexivity)).
Defined.

(** A file that selects tool 1 and drills, without defining it. *)
Lemma parse_drill_no_tool_no_hit_witness :
  Drill.parse_drill Gerber.init
    (Readable ["M48"; "METRIC"; "T01"; "X010000Y020000"]) = Return [].
Proof.
  exact (parse_drill_no_tool_no_hit Gerber.init
           ["M48"; "METRIC"; "T01"; "X010000Y020000"] eq_refl).
Defined.

(** ** Axes without a token in a drill record *)

Section DrillAxes.

Import PyStr Drill.

(** An axis without a token with a decimal point keeps what [coords]
    held. *)
Lemma decimal_coords_absent (a : ascii) toks : forall c coords,
  a ∉ toks.*1 ->
  decimal_coords c toks = Return coords ->
  coords !! a = c !! a.
Proof.
  induction toks as [|[b s] toks IH]; intros c coords Ha H; simpl in *.
  - inversion H; reflexivity.
  - apply not_elem_of_cons in Ha as [Hab Ha].
    destruct (py_float s); [|discriminate].
    rewrite (IH _ _ Ha H). apply lookup_insert_ne. congruence.
Qed.

(** An axis without any token is not in the dictionary of the line. *)
Lemma line_coords_absent decimals line (a : ascii) coords :
  a ∉ (findall_decimal line).*1 ->
  a ∉ (findall_integer line).*1 ->
  line_coords decimals line = Return coords ->
  coords !! a = None.
Proof.
  intros Hd Hi. unfold line_coords.
  destruct (decimal_coords ∅ (findall_decimal line)) as [c|] eqn:E;
    [|discriminate]. simpl.
  destruct (decide (c = ∅)) as [->|_].
  - intros H. rewrite (integer_coords_absent _ _ _ _ _ Hi H).
    apply lookup_empty.
  - intros H; inversion H; subst.
    rewrite (decimal_coords_absent _ _ _ _ Hd E). apply lookup_empty.
Qed.

(** The position after a line that returns, also when the line has no
    coordinates. *)
Lemma step_position_kept st line st' :
  step st line = Return st' ->
  (exists coords,
     line_coords (drill_decimals st') line = Return coords /\ coords <> ∅)
  \/ current_pos st' = current_pos st.
Proof.
  unfold step. destruct (skipped _); [intros E; inversion E; auto|].
  destruct (match match_tool _ with Some _ => _ | None => _ end) as [tools|];
    [|discriminate]. simpl.
  destruct (line_coords _ line) as [coords|] eqn:Ec; [|discriminate]. simpl.
  destruct (decide (coords = ∅)); intros E; inversion E; subst; clear E;
    simpl; eauto.
Qed.

(** X14: in absolute mode a record moves only the axes it names: an axis
    that has no token on the line, with or without a decimal point, stays
    where it was. *)
Theorem drill_axis_without_token_stays st line st' :
  skipped (upper (strip line)) = false ->
  step st line = Return st' ->
  incremental_mode st' = false ->
  ("X"%char ∉ (findall_decimal line).*1 ->
   "X"%char ∉ (findall_integer line).*1 ->
   x (current_pos st') = x (current_pos st))
  /\ ("Y"%char ∉ (findall_decimal line).*1 ->
      "Y"%char ∉ (findall_integer line).*1 ->
      y (current_pos st') = y (current_pos st)).
Proof.
  intros Hskip Hstep Habs.
  destruct (step_returns _ _ _ Hskip Hstep) as (coords & Hc & _ & Hpos).
  destruct (step_position_kept _ _ _ Hstep) as [(c & Hc' & Hne)| ->];
    [|split; reflexivity].
  rewrite Hc in Hc'. inversion Hc'; subst c.
  destruct (Hpos Hne) as [HX HY]. rewrite Habs in HX, HY.
  split; intros Hd Hi;
    [rewrite HX|rewrite HY];
    rewrite (line_coords_absent _ _ _ _ Hd Hi Hc); reflexivity.
Qed.

End DrillAxes.

(** [X010000] at (0, 5): Y stays at 5. *)
Lemma drill_axis_without_token_stays_witness :
  y (Drill.current_pos
       (Drill.mkState ∅ [] None (mkPoint 25.4 5) 5 25.4 false)) = 5%float.
Proof.
  exact (proj2 (drill_axis_without_token_stays
                  (Drill.mkState ∅ [] None (mkPoint 0 5) 5 25.4 false)
                  "X010000"
                  (Drill.mkState ∅ [] None (mkPoint 25.4 5) 5 25.4 false)
                  eq_refl ltac:(vm_compute; reflexivity) eq_refl)
           ltac:(vm_compute; apply not_elem_of_nil)
           ltac:(vm_compute; intros H; inversion H as [|? ? ? H'];
                 inversion H')).
Defined.

(** ** The closing rule *)

Section Closing.

Import Extract.
Context {S : Shapely}.

(** X15: on three or more coordinates whose first vertex compares equal to
    itself (no NaN), [coords_close_and_fix] leaves the list closed: it
    appends the first vertex when the list was open, and nothing else. *)
Theorem coords_close_and_fix_closes coords a :
  (3 <= length coords)%nat ->
  head coords = Some a ->
  differ a a = false ->
  is_closed (coords_close_and_fix coords).1 = true
  /\ (coords_close_and_fix coords).1 =
     (if is_closed coords then coords else coords ++ [a]).
Proof.
  intros Hlen Hhead Hrefl. unfold coords_close_and_fix, is_closed.
  destruct (Nat.ltb_spec (length coords) 3) as [?|_]; [lia|].
  rewrite Hhead. destruct coords as [|a0 rest]; [discriminate|].
  simpl in Hhead. inversion Hhead; subst a0.
  destruct (last (a :: rest)) as [b|] eqn:Hlast.
  - destruct (differ a b) eqn:Hd; cbn [fst].
    + change (head ((a :: rest) ++ [a])) with (Some a).
      rewrite last_snoc, Hrefl. auto.
    + change (head (a :: rest)) with (Some a). rewrite Hlast, Hd. auto.
  - apply last_None in Hlast. discriminate.
Qed.

(** X16: [coords_close_and_fix] returns a polygon only for three or more
    coordinates, and only one that passed its check, also after the
    [buffer(0)] repair: valid, not empty, of area above 1e-9.  Everything
    else gives [None]. *)
Theorem coords_close_and_fix_returns_checked coords poly :
  (coords_close_and_fix coords).2 = Some poly ->
  (3 <= length coords)%nat
  /\ is_valid poly = true /\ is_empty poly = false
  /\ (1e-9 <? area poly)%float = true.
Proof.
  intros H. split; [|exact (coords_close_and_fix_checked coords poly H)].
  unfold coords_close_and_fix in H.
  destruct (Nat.ltb_spec (length coords) 3) as [?|?]; [discriminate|lia].
Qed.

End Closing.

(** A triangle given by its three corners gets its first corner appended. *)
Lemma coords_close_and_fix_closes_witness :
  Extract.is_closed
    (Extract.coords_close_and_fix (H := Rings.shapely)
       [(0, 0); (1, 0); (0, 1)]%float).1 = true
  /\ (Extract.coords_close_and_fix (H := Rings.shapely)
        [(0, 0); (1, 0); (0, 1)]%float).1 =
     ([(0, 0); (1, 0); (0, 1)] ++ [(0, 0)])%float.
Proof.
  exact (coords_close_and_fix_closes (S := Rings.shapely)
           [(0, 0); (1, 0); (0, 1)]%float (0, 0)%float
           ltac:(simpl; lia) eq_refl eq_refl).
Defined.

(** The unit square given by its four corners comes back closed and
    checked. *)
Lemma coords_close_and_fix_returns_checked_witness :
  (3 <= length [(0, 0); (1, 0); (1, 1); (0, 1)]%float)%nat
  /\ is_valid (Shapely := Rings.shapely)
       [(0, 0); (1, 0); (1, 1); (0, 1); (0, 0)]%float = true
  /\ is_empty (Shapely := Rings.shapely)
       [(0, 0); (1, 0); (1, 1); (0, 1); (0, 0)]%float = false
  /\ (1e-9 <? area (Shapely := Rings.shapely)
                [(0, 0); (1, 0); (1, 1); (0, 1); (0, 0)])%float = true.
Proof.
  exact (coords_close_and_fix_returns_checked (S := Rings.shapely)
           [(0, 0); (1, 0); (1, 1); (0, 1)]%float
           [(0, 0); (1, 0); (1, 1); (0, 1); (0, 0)]%float eq_refl).
Defined.

(** ** Layer order and layer transforms *)

Section LayerOrder.

Import PyStr Layers.
Local Open Scope string_scope.

(** Two suffixes of one length that end the same string are equal. *)
Lemma endswith_same_length (s p q : string) :
  String.length p = String.length q ->
  endswith s p = true -> endswith s q = true -> p = q.
Proof.
  unfold endswith. intros Hlen Hp Hq.
  apply andb_prop in Hp as [_ Hp]. apply andb_prop in Hq as [_ Hq].
  apply String.eqb_eq in Hp, Hq. rewrite Hlen in Hp. congruence.
Qed.

(** [layer_sort_key] as the chain of tests its loop makes. *)
Lemma layer_sort_key_tests (name : string) :
  layer_sort_key name =
  let ln := lower name in
  if endswith ln ".gbp" then 0%nat else if endswith ln ".gbo" then 1%nat
  else if endswith ln ".gbs" then 2%nat else if endswith ln ".gbl" then 3%nat
  else if endswith ln ".gtl" then 5%nat else if endswith ln ".gts" then 6%nat
  else if endswith ln ".gto" then 7%nat else if endswith ln ".gtp" then 8%nat
  else 4%nat.
Proof.
  unfold layer_sort_key. simpl.
  repeat (match goal with |- context [if ?b then _ else _] => destruct b end;
          simpl; try reflexivity).
Qed.

(** X17: [layer_sort_key] gives the place of the extension in
    [order_priority], case-insensitively: 0 to 3 for the bottom layers
    [.gbp .gbo .gbs .gbl], 5 to 8 for the top layers [.gtl .gts .gto .gtp],
    and 4 exactly for the names with none of the eight; so bottom layers
    sort before unknown ones and these before top layers. *)
Theorem layer_sort_key_by_extension (name : string) :
  let ln := lower name in
  let key := layer_sort_key name in
  (endswith ln ".gbp" = true -> key = 0%nat)
  /\ (endswith ln ".gbo" = true -> key = 1%nat)
  /\ (endswith ln ".gbs" = true -> key = 2%nat)
  /\ (endswith ln ".gbl" = true -> key = 3%nat)
  /\ (endswith ln ".gtl" = true -> key = 5%nat)
  /\ (endswith ln ".gts" = true -> key = 6%nat)
  /\ (endswith ln ".gto" = true -> key = 7%nat)
  /\ (endswith ln ".gtp" = true -> key = 8%nat)
  /\ (key = 4%nat <->
      Forall (fun ext => endswith ln ext = false)
        [".gbp"; ".gbo"; ".gbs"; ".gbl"; ".gtl"; ".gts"; ".gto"; ".gtp"]).
Proof.
  intros ln key. unfold key. rewrite layer_sort_key_tests. fold ln. cbv zeta.
  assert (forall p q, String.length p = String.length q -> p <> q ->
                      endswith ln p = true -> endswith ln q = true -> False)
    as Hx by (intros p q Hl Hne Hp Hq; apply Hne;
              exact (endswith_same_length ln p q Hl Hp Hq)).
  assert (forall p q, endswith ln p = true -> endswith ln q = true ->
                      String.length p = String.length q -> p = q) as Hsame
    by (intros p q Hp Hq Hl; exact (endswith_same_length ln p q Hl Hp Hq)).
  clear Hx.
  destruct (endswith ln ".gbp") eqn:E0; destruct (endswith ln ".gbo") eqn:E1;
    try discriminate (Hsame _ _ E0 E1 eq_refl);
    destruct (endswith ln ".gbs") eqn:E2;
    try discriminate (Hsame _ _ E0 E2 eq_refl);
    try discriminate (Hsame _ _ E1 E2 eq_refl);
    destruct (endswith ln ".gbl") eqn:E3;
    try discriminate (Hsame _ _ E0 E3 eq_refl);
    try discriminate (Hsame _ _ E1 E3 eq_refl);
    try discriminate (Hsame _ _ E2 E3 eq_refl);
    destruct (endswith ln ".gtl") eqn:E4;
    try discriminate (Hsame _ _ E0 E4 eq_refl);
    try discriminate (Hsame _ _ E1 E4 eq_refl);
    try discriminate (Hsame _ _ E2 E4 eq_refl);
    try discriminate (Hsame _ _ E3 E4 eq_refl);
    destruct (endswith ln ".gts") eqn:E5;
    try discriminate (Hsame _ _ E0 E5 eq_refl);
    try discriminate (Hsame _ _ E1 E5 eq_refl);
    try discriminate (Hsame _ _ E2 E5 eq_refl);
    try discriminate (Hsame _ _ E3 E5 eq_refl);
    try discriminate (Hsame _ _ E4 E5 eq_refl);
    destruct (endswith ln ".gto") eqn:E6;
    try discriminate (Hsame _ _ E0 E6 eq_refl);
    try discriminate (Hsame _ _ E1 E6 eq_refl);
    try discriminate (Hsame _ _ E2 E6 eq_refl);
    try discriminate (Hsame _ _ E3 E6 eq_refl);
    try discriminate (Hsame _ _ E4 E6 eq_refl);
    try discriminate (Hsame _ _ E5 E6 eq_refl);
    destruct (endswith ln ".gtp") eqn:E7;
    try discriminate (Hsame _ _ E0 E7 eq_refl);
    try discriminate (Hsame _ _ E1 E7 eq_refl);
    try discriminate (Hsame _ _ E2 E7 eq_refl);
    try discriminate (Hsame _ _ E3 E7 eq_refl);
    try discriminate (Hsame _ _ E4 E7 eq_refl);
    try discriminate (Hsame _ _ E5 E7 eq_refl);
    try discriminate (Hsame _ _ E6 E7 eq_refl);
    repeat split; intros H; try discriminate H; try reflexivity;
    try (repeat constructor; assumption);
    repeat (match goal with
            | H : Forall _ (_ :: _) |- _ => inversion H; clear H; subst
            end); congruence.
Qed.

(** X18: four quarter turns bring the rotation angle back, and from then on
    it stays in [0, 360); mirroring twice changes nothing. *)
Theorem rotate_four_times (t : transform_state) :
  rotation_angle
    (rotate_layers (rotate_layers (rotate_layers (rotate_layers t))))
  = (rotation_angle t mod 360)%Z
  /\ (0 <= rotation_angle (rotate_layers t) < 360)%Z
  /\ mirrored (rotate_layers t) = mirrored t
  /\ toggle_mirror (toggle_mirror t) = t.
Proof.
  destruct t as [m a]. unfold rotate_layers, toggle_mirror. simpl.
  repeat split; try (apply Z.mod_pos_bound; lia).
  - Z.to_euclidean_division_equations. lia.
  - rewrite negb_involutive. reflexivity.
Qed.

End LayerOrder.

(** ** The net-list reader *)

Section NetList.

Import PyStr Ipc.

(** Looking a net up after a point was added. *)
Lemma lookup_add_point name n pt ns :
  lookup name (add_point n pt ns) =
  if (n =? name)%string then Some (default [] (lookup name ns) ++ [pt])
  else lookup name ns.
Proof.
  induction ns as [|[m pts] ns IH]; simpl.
  - destruct (n =? name)%string; reflexivity.
  - destruct (m =? n)%string eqn:Emn; simpl.
    + apply String.eqb_eq in Emn. subst m.
      destruct (n =? name)%string; reflexivity.
    + destruct (m =? name)%string eqn:Em; [|exact IH].
      destruct (n =? name)%string eqn:En; [|reflexivity].
      apply String.eqb_eq in Em, En. subst. rewrite String.eqb_refl in Emn.
      discriminate.
Qed.

(** The points of a net after the loop, from any dictionary. *)
Lemma foldl_step_points name lines : forall ns,
  default [] (lookup name (foldl step ns lines)) =
  default [] (lookup name ns) ++ Kinds.net_points name lines.
Proof.
  induction lines as [|line lines IH]; intros ns; simpl.
  - rewrite app_nil_r. reflexivity.
  - rewrite IH. unfold step.
    destruct (record line) as [[n pt]|]; [|reflexivity].
    rewrite lookup_add_point.
    destruct (n =? name)%string; simpl; [rewrite <- app_assoc|]; reflexivity.
Qed.

(** Every net of the dictionary has a point; kept by the loop. *)
Lemma add_point_nonempty n pt ns :
  Forall (fun e => e.2 <> []) ns ->
  Forall (fun e => e.2 <> []) (add_point n pt ns).
Proof.
  induction 1 as [|[m pts] ns Hm Hns IH]; simpl.
  - repeat constructor. discriminate.
  - destruct (m =? n)%string; constructor; simpl in *; auto.
    destruct pts; discriminate.
Qed.

(** The names of the dictionary after a point was added. *)
Lemma add_point_names n pt ns :
  (add_point n pt ns).*1 = if bool_decide (n ∈ ns.*1) then ns.*1
                           else ns.*1 ++ [n].
Proof.
  induction ns as [|[m pts] ns IH].
  - reflexivity.
  - cbn [add_point]. destruct (m =? n)%string eqn:E.
    + apply String.eqb_eq in E. subst.
      rewrite bool_decide_eq_true_2 by apply list_elem_of_here. reflexivity.
    + apply String.eqb_neq in E. rewrite !fmap_cons, IH. cbn [fst].
      destruct (bool_decide (n ∈ ns.*1)) eqn:Ein.
      * apply bool_decide_eq_true in Ein.
        rewrite bool_decide_eq_true_2 by (apply list_elem_of_further, Ein).
        reflexivity.
      * apply bool_decide_eq_false in Ein.
        rewrite bool_decide_eq_false_2; [reflexivity|].
        intros H. apply elem_of_cons in H as [->|H]; [congruence|auto].
Qed.

Lemma add_point_NoDup n pt ns : NoDup ns.*1 -> NoDup (add_point n pt ns).*1.
Proof.
  intros H. rewrite add_point_names.
  destruct (bool_decide (n ∈ ns.*1)) eqn:E; [exact H|].
  apply bool_decide_eq_false in E. apply NoDup_app. repeat split; auto.
  - intros x Hx Hn. apply list_elem_of_singleton in Hn. subst. auto.
  - apply NoDup_singleton.
Qed.

Lemma foldl_step_wf lines : forall ns,
  NoDup ns.*1 -> Forall (fun e => e.2 <> []) ns ->
  NoDup (foldl step ns lines).*1
  /\ Forall (fun e => e.2 <> []) (foldl step ns lines).
Proof.
  induction lines as [|line lines IH]; intros ns Hd Hn; simpl; [auto|].
  apply IH; unfold step; destruct (record line) as [[n pt]|];
    auto using add_point_NoDup, add_point_nonempty.
Qed.

(** A name that is looked up is found with its points, or not at all. *)
Lemma lookup_None name ns :
  Forall (fun e => e.2 <> []) ns ->
  lookup name ns = None <-> default [] (lookup name ns) = [].
Proof.
  intros Hn. split; [intros ->; reflexivity|].
  induction Hn as [|[m pts] ns Hm Hns IH]; simpl; [reflexivity|].
  destruct (m =? name)%string; [|exact IH]. simpl in *. congruence.
Qed.

(** X19: on a file it can open, [IPCParser.parse] returns, for every net
    name, the points of the records whose first part is that name, in the
    order of the file; a name no record carries is not in the dictionary. *)
Theorem ipc_parse_points lines name :
  exists ns,
    parse (Readable lines) = Return ns
    /\ default [] (lookup name ns) = Kinds.net_points name lines
    /\ (lookup name ns = None <-> Kinds.net_points name lines = []).
Proof.
  eexists. split; [reflexivity|].
  pose proof (foldl_step_points name lines []) as Hp. simpl in Hp.
  split; [exact Hp|]. rewrite <- Hp. apply lookup_None.
  apply (foldl_step_wf lines []); constructor.
Qed.

(** X20: the dictionary [IPCParser.parse] returns holds each net name once
    and no net without a point. *)
Theorem ipc_parse_nets_distinct lines :
  exists ns,
    parse (Readable lines) = Return ns
    /\ NoDup ns.*1
    /\ Forall (fun e => e.2 <> []) ns.
Proof.
  eexists. split; [reflexivity|].
  apply (foldl_step_wf lines []); constructor.
Qed.

(** A line the reader passes over adds nothing. *)
Lemma record_skipped line :
  Kinds.ipc_skipped line = true -> record line = None.
Proof.
  unfold Kinds.ipc_skipped, record. intros H.
  destruct (startswith line "P " || startswith line "999"); [reflexivity|].
  simpl in H. apply orb_prop in H as [H|H]; apply bool_decide_eq_true in H;
    rewrite H; [reflexivity|]. destruct (first_part line); reflexivity.
Qed.

Lemma foldl_step_skipped lines : forall ns,
  foldl step ns
    (List.filter (fun line => negb (Kinds.ipc_skipped line)) lines)
  = foldl step ns lines.
Proof.
  induction lines as [|line lines IH]; intros ns; [reflexivity|]. simpl.
  destruct (Kinds.ipc_skipped line) eqn:E; simpl; [|apply IH].
  assert (step ns line = ns) as ->
    by (unfold step; rewrite (record_skipped _ E); reflexivity).
  apply IH.
Qed.

(** X21: probe records ([P ]), the end marker ([999]), blank lines and
    lines without a coordinate pair can be taken out of a net-list file
    without changing what [IPCParser.parse] returns. *)
Theorem ipc_parse_without_skipped_lines lines :
  parse (Readable (List.filter (fun line => negb (Kinds.ipc_skipped line)) lines))
  = parse (Readable lines).
Proof. unfold parse. rewrite foldl_step_skipped. reflexivity. Qed.

(** A run of characters found by [span] is a run of such characters. *)
Lemma span_fst f s : span f (span f s).1 = ((span f s).1, EmptyString).
Proof.
  induction s as [|c r IH]; [reflexivity|]. simpl.
  destruct (f c) eqn:E; [|reflexivity].
  destruct (span f r) as [a b]. simpl in *. rewrite E, IH. reflexivity.
Qed.

Lemma digit_not_space c : is_digit c = true -> is_space c = false.
Proof.
  unfold is_digit, is_space. intros H. apply andb_prop in H as [H1 H2].
  apply N.leb_le in H1, H2.
  apply orb_false_intro; apply andb_false_intro2; apply N.leb_gt; lia.
Qed.

(** On a run of digits, the digit part of a float is the whole run, and
    stripping changes nothing. *)
Lemma digit_run_digits D :
  span is_digit D = (D, EmptyString) -> digit_run D = (D, EmptyString).
Proof.
  induction D as [|c r IH]; [reflexivity|]. simpl.
  destruct (is_digit c); [|discriminate].
  destruct (span is_digit r) as [a b]. intros H; inversion H; subst.
  rewrite IH; reflexivity.
Qed.

Lemma rstrip_digits D :
  span is_digit D = (D, EmptyString) -> rstrip D = D.
Proof.
  induction D as [|c r IH]; [reflexivity|]. simpl.
  destruct (is_digit c) eqn:Ec; [|discriminate].
  destruct (span is_digit r) as [a b]. intros H; inversion H; subst.
  rewrite IH by reflexivity.
  destruct r; [rewrite (digit_not_space _ Ec)|]; reflexivity.
Qed.

(** [float] accepts a run of digits. *)
Lemma absfloatvalue_digits d ds :
  is_digit d = true -> span is_digit ds = (ds, EmptyString) ->
  exists f, absfloatvalue (String d ds) = Some f.
Proof.
  intros Hd Hds. unfold absfloatvalue, number, digitpart.
  rewrite Hd, (digit_run_digits _ Hds).
  destruct d as [[] [] [] [] [] [] [] []]; try discriminate Hd;
    simpl; eauto.
Qed.

(** [float] accepts what [[+-]?[0-9]+] matches. *)
Lemma py_float_integer t s r :
  Drill.integer_here t = Some (s, r) -> exists f, py_float s = Some f.
Proof.
  unfold Drill.integer_here.
  destruct (Drill.sign_of t) as [sg r0] eqn:Esg.
  pose proof (span_fst is_digit r0) as Hall.
  destruct (span is_digit r0) as [[|d ds] r1]; [discriminate|].
  intros H; inversion H; subst; clear H. simpl in Hall.
  destruct (is_digit d) eqn:Hd; [|discriminate].
  destruct (span is_digit ds) as [a b] eqn:Hds. inversion Hall; subst a b.
  destruct (absfloatvalue_digits d ds Hd Hds) as [f Hf].
  assert (rstrip (String d ds) = String d ds) as Hrs
    by (apply rstrip_digits; simpl; rewrite Hd, Hds; reflexivity).
  assert (sg = "+" \/ sg = "-" \/ sg = "")%string as Hsg.
  { unfold Drill.sign_of in Esg.
    destruct t as [|[[] [] [] [] [] [] [] []] t']; inversion Esg; auto. }
  assert (forall c, rstrip (String c (String d ds)) = String c (String d ds))
    as Hcons.
  { intros c.
    change (rstrip (String c (String d ds)))
      with (match rstrip (String d ds) with
            | EmptyString =>
                if is_space c then EmptyString else String c EmptyString
            | r' => String c r'
            end).
    rewrite Hrs. reflexivity. }
  unfold py_float, strip.
  destruct Hsg as [->|[->| ->]].
  - change ("+" +:+ String d ds)%string with (String "+" (String d ds)).
    change (lstrip (String "+" (String d ds))) with (String "+" (String d ds)).
    rewrite Hcons. cbv beta iota. eauto.
  - change ("-" +:+ String d ds)%string with (String "-" (String d ds)).
    change (lstrip (String "-" (String d ds))) with (String "-" (String d ds)).
    rewrite Hcons. cbv beta iota. rewrite Hf. simpl. eauto.
  - change ("" +:+ String d ds)%string with (String d ds).
    assert (lstrip (String d ds) = String d ds) as ->
      by (simpl; rewrite (digit_not_space _ Hd); reflexivity).
    rewrite Hrs.
    destruct d as [[] [] [] [] [] [] [] []]; try discriminate Hd;
      cbv beta iota; eauto.
Qed.

(** Both groups of a coordinate match are such integers. *)
Lemma search_coord_integers line xs ys :
  search_coord line = Some (xs, ys) ->
  (exists t r, Drill.integer_here t = Some (xs, r))
  /\ (exists t r, Drill.integer_here t = Some (ys, r)).
Proof.
  induction line as [|c rest IH]; cbn [search_coord].
  - discriminate.
  - destruct (coord_here (String c rest)) as [m|] eqn:E; [|exact IH].
    intros H; inversion H; subst; clear H. unfold coord_here in E.
    destruct c as [[] [] [] [] [] [] [] []]; try discriminate E.
    destruct (Drill.integer_here rest) as [[xs' r1]|] eqn:E1;
      [|discriminate].
    destruct r1 as [|[[] [] [] [] [] [] [] []] r2]; try discriminate E.
    destruct (Drill.integer_here r2) as [[ys' r3]|] eqn:E2; [|discriminate].
    inversion E; subst. split; eauto.
Qed.

(** A line that is not passed over adds a point: its coordinates always
    convert. *)
Lemma record_not_skipped line :
  Kinds.ipc_skipped line = false -> exists n pt, record line = Some (n, pt).
Proof.
  unfold Kinds.ipc_skipped, record. intros H.
  apply orb_false_elim in H as [H Hc]. apply orb_false_elim in H as [H Hf].
  rewrite H. apply bool_decide_eq_false in Hc, Hf.
  destruct (first_part line) as [n|]; [|congruence].
  destruct (search_coord line) as [[xs ys]|] eqn:E; [|congruence].
  destruct (search_coord_integers _ _ _ E) as [(t1 & r1 & H1) (t2 & r2 & H2)].
  destruct (py_float_integer _ _ _ H1) as [fx ->].
  destruct (py_float_integer _ _ _ H2) as [fy ->]. eauto.
Qed.

(** Adding a point adds one point. *)
Lemma add_point_total n pt ns :
  sum_list (length <$> (add_point n pt ns).*2)
  = S (sum_list (length <$> ns.*2)).
Proof.
  induction ns as [|[m pts] ns IH]; [reflexivity|]. cbn [add_point].
  destruct (m =? n)%string; rewrite !fmap_cons; cbn [snd sum_list sum_list_with].
  - rewrite length_app. simpl. lia.
  - rewrite IH. lia.
Qed.

Lemma foldl_step_total lines : forall ns,
  sum_list (length <$> (foldl step ns lines).*2)
  = (sum_list (length <$> ns.*2)
     + length (List.filter (fun line => negb (Kinds.ipc_skipped line)) lines))%nat.
Proof.
  induction lines as [|line lines IH]; intros ns; simpl; [lia|].
  rewrite IH. unfold step.
  destruct (Kinds.ipc_skipped line) eqn:E; simpl.
  - rewrite (record_skipped _ E). reflexivity.
  - destruct (record_not_skipped _ E) as (n & pt & ->).
    rewrite add_point_total. lia.
Qed.

(** X22: [IPCParser.parse] loses no record: the points of all nets together
    are as many as the lines that are neither probe records, end markers,
    blank nor without a coordinate pair.  The conversion of a matched
    coordinate never fails. *)
Theorem ipc_parse_point_count lines :
  exists ns,
    parse (Readable lines) = Return ns
    /\ sum_list (length <$> ns.*2)
       = length (List.filter (fun line => negb (Kinds.ipc_skipped line)) lines).
Proof.
  eexists. split; [reflexivity|]. rewrite foldl_step_total. reflexivity.
Qed.

End NetList.
